(** * Trade history: amount formatting and volume computation

    A shallow embedding of the computations of [src/TradeHistory.tsx]: the
    token map built by [fetchTokens], the sort applied by [fetchTrades],
    [getSymbol], [formatAmountWithToken], [calculateVolume],
    [calculateTotalVolume] and the cells of a table row, together with the
    parts of the JavaScript runtime and of the bn.js big-number library
    these functions call.

    - JavaScript strings are modelled as [string] (sequences of 8-bit
      characters, the Latin-1 range of JavaScript code units).
    - A [BN] is an unbounded integer, [Z].
    - A JavaScript [number] is an IEEE 754 binary64 value, [spec_float]
      with precision 53 and maximal exponent 1024.
    - A [Map<string, Token>] is a [gmap string Token].
    - A call ends in a [result]: a value, a thrown exception, or no
      return at all. *)

From Stdlib Require Import ZArith String Ascii List Lia Bool SpecFloat.
From Stdlib Require Import Sorted Permutation.
From stdpp Require Import gmap strings.

Local Open Scope Z_scope.

(** ** Outcomes *)

(** A JavaScript [Error] carrying its message. *)
Inductive exn : Type :=
| Error (message : string).

(** How a call ends: it returns a value, it throws, or it does not come
    back at all, being caught in a loop that never ends (the engine stops
    such a loop only by running out of memory). *)
Inductive result (A : Type) : Type :=
| Ok (value : A)
| Throw (e : exn)
| NoReturn.

Arguments Ok {A} value.
Arguments Throw {A} e.
Arguments NoReturn {A}.

Definition bind {A B : Type} (r : result A) (k : A -> result B) : result B :=
  match r with
  | Ok a => k a
  | Throw e => Throw e
  | NoReturn => NoReturn
  end.

Notation "'let*' x ':=' r 'in' k" := (bind r (fun x => k))
  (at level 10, x name, r at level 100, k at level 200).

Definition is_ok {A : Type} (r : result A) : bool :=
  match r with
  | Ok _ => true
  | Throw _ | NoReturn => false
  end.

(** ** Strings of the JavaScript runtime *)

Module JSString.

Definition is_digit (c : ascii) : bool :=
  let n := nat_of_ascii c in ((48 <=? n) && (n <=? 57))%nat.

(** The characters matched by the regular expression class [\s] and
    trimmed by [parseFloat], within the 8-bit range. *)
Definition is_space (c : ascii) : bool :=
  let n := nat_of_ascii c in
  (((9 <=? n) && (n <=? 13)) || (n =? 32) || (n =? 160))%nat.

Fixpoint all_digits (s : string) : bool :=
  match s with
  | EmptyString => true
  | String c s' => is_digit c && all_digits s'
  end.

Fixpoint repeat_char (c : ascii) (n : nat) : string :=
  match n with
  | O => EmptyString
  | S n' => String c (repeat_char c n')
  end.

(** [s.padStart(targetLength, c)] for a one-character pad string. *)
Definition padStart (s : string) (targetLength : nat) (c : ascii) : string :=
  repeat_char c (targetLength - String.length s) +:+ s.

(** [s.slice(start)] and [s.slice(0, stop)] for indices within range
    or beyond the end. *)
Definition slice_to (s : string) (stop : nat) : string := substring 0 stop s.

Fixpoint slice_from (s : string) (start : nat) : string :=
  match start, s with
  | O, _ => s
  | S _, EmptyString => EmptyString
  | S n, String _ s' => slice_from s' n
  end.

(** [s.replace(/\s+/g, '')]. *)
Fixpoint remove_spaces (s : string) : string :=
  match s with
  | EmptyString => EmptyString
  | String c s' =>
      if is_space c then remove_spaces s' else String c (remove_spaces s')
  end.

Fixpoint trim_start (s : string) : string :=
  match s with
  | EmptyString => EmptyString
  | String c s' => if is_space c then trim_start s' else s
  end.

(** The longest prefix of decimal digits and what follows it. *)
Fixpoint span_digits (s : string) : string * string :=
  match s with
  | EmptyString => (EmptyString, EmptyString)
  | String c s' =>
      if is_digit c
      then let '(d, r) := span_digits s' in (String c d, r)
      else (EmptyString, s)
  end.

Definition digit_of (c : ascii) : Z := Z.of_nat (nat_of_ascii c) - 48.

Definition digit_char (d : Z) : ascii := ascii_of_nat (48 + Z.to_nat d).

(** The number a string of decimal digits denotes. *)
Fixpoint digits_value (s : string) : Z :=
  match s with
  | EmptyString => 0
  | String c s' => digit_of c * 10 ^ Z.of_nat (String.length s') + digits_value s'
  end.

Fixpoint to_digits (fuel : nat) (n : Z) (acc : string) : string :=
  match fuel with
  | O => acc
  | S fuel' =>
      let acc' := String (digit_char (n mod 10)) acc in
      if n / 10 =? 0 then acc' else to_digits fuel' (n / 10) acc'
  end.

(** The decimal digits of a non-negative integer, without leading
    zeros; ["0"] for zero.  A number has no more decimal digits than
    binary digits, which bounds the recursion. *)
Definition decimal_string (n : Z) : string :=
  to_digits (S (Z.to_nat (Z.log2 n))) n EmptyString.

(** A digit string is canonical when it is ["0"] or starts with a
    digit other than zero. *)
Definition lead_nonzero (s : string) : bool :=
  match s with
  | EmptyString => false
  | String c _ => negb (Ascii.eqb c "0")
  end.

Definition is_canonical (s : string) : bool :=
  all_digits s && (String.eqb s "0" || lead_nonzero s).

Fixpoint contains (c : ascii) (s : string) : bool :=
  match s with
  | EmptyString => false
  | String c' s' => Ascii.eqb c' c || contains c s'
  end.

(** The part of a string before the first occurrence of [sep]; the whole
    string when [sep] does not occur. *)
Fixpoint before (sep : ascii) (s : string) : string :=
  match s with
  | EmptyString => EmptyString
  | String c s' => if Ascii.eqb c sep then EmptyString else String c (before sep s')
  end.

(** The part of a string after the first occurrence of [sep]. *)
Fixpoint after (sep : ascii) (s : string) : string :=
  match s with
  | EmptyString => EmptyString
  | String c s' => if Ascii.eqb c sep then s' else after sep s'
  end.

(** A decimal point followed by exactly three digits that end the
    string. *)
Definition three_fraction_digits (s : string) : bool :=
  contains "." s && (String.length (after "." s) =? 3)%nat && all_digits (after "." s).

End JSString.

(** ** bn.js *)

(** The big-number class of the bn.js library (release 5), as far as the
    component uses it: construction from a string and from a small
    number, [pow], [div], [mod] and [toString] in base 10. *)
Module BN.

Import JSString.

(** A number made from a string.  The constructor starts with
    [words = null] and [length = 0] and sets the words only when it has
    something to parse, so a number is either set to an integer or left
    unset, with the sign flag it was given.  A number made from a
    JavaScript number is always set: it is an integer, [Z]. *)
Inductive t : Type :=
| Int (value : Z)
| Unset (negative : bool).

(** [parseBase(str, start, end, 10)]: every character must be a decimal
    digit; the library asserts this and throws otherwise.  The library
    reads the string in limbs of seven digits, which it combines into
    the same number as this left-to-right pass. *)
Fixpoint parseBase (str : string) (r : Z) : result Z :=
  match str with
  | EmptyString => Ok r
  | String ch rest =>
      let c := Z.of_nat (nat_of_ascii ch) - 48 in
      let b :=
        if 49 <=? c then c - 49 + 10
        else if 17 <=? c then c - 17 + 10
        else c in
      if (0 <=? c) && (b <? 10)
      then parseBase rest (r * 10 + b)
      else Throw (Error "Invalid character")
  end.

(** [new BN(number)] for a string argument.  The constructor takes
    [number || 0], so the empty string gives zero; it removes all white
    space, takes one leading minus sign as the sign and parses the rest
    in base 10.  When nothing is left to parse (the string held only
    white space, or a minus sign and white space) the parsing is skipped
    and the number stays unset. *)
Definition of_string (number : string) : result t :=
  match number with
  | EmptyString => Ok (Int 0)
  | _ =>
      match remove_spaces number with
      | EmptyString => Ok (Unset false)
      | String "-"%char EmptyString => Ok (Unset true)
      | String "-"%char rest => let* v := parseBase rest 0 in Ok (Int (- v))
      | digits => let* v := parseBase digits 0 in Ok (Int v)
      end
  end.

(** What [new BN(number)] reads as digits: [number] without its white
    space and without one leading minus sign. *)
Definition unsigned_part (number : string) : string :=
  match remove_spaces number with
  | String "-"%char rest => rest
  | digits => digits
  end.

(** The strings that leave the number unset: not empty, and nothing
    but white space and one leading minus sign. *)
Definition leaves_unset (number : string) : bool :=
  negb (String.eqb number "") && String.eqb (unsigned_part number) "".

(** [new BN(n)] for a small non-negative integer, and [a.pow(b)] of two
    such numbers. *)
Definition of_nat (n : nat) : Z := Z.of_nat n.

Definition pow (a b : Z) : Z := a ^ b.

(** [a.div(b)] and [a.mod(b)] for a divisor [b] that is set and
    positive.  [div] truncates towards zero and [mod] has the sign of
    [a].  A number that is unset has no words, fewer than the divisor:
    its quotient is a new zero and its remainder the number itself. *)
Definition div (a : t) (b : Z) : t :=
  match a with
  | Int x => Int (Z.quot x b)
  | Unset _ => Int 0
  end.

Definition mod_ (a : t) (b : Z) : t :=
  match a with
  | Int x => Int (Z.rem x b)
  | Unset s => Unset s
  end.

(** The decimal rendering of an integer. *)
Definition decimal (value : Z) : string :=
  if value <? 0 then String "-"%char (decimal_string (- value))
  else decimal_string value.

(** [a.toString()].  The digits are produced group by group until the
    number tested is zero, which takes one word equal to zero: for a
    number that is unset the test never succeeds and the call does not
    return. *)
Definition toString (a : t) : result string :=
  match a with
  | Int x => Ok (decimal x)
  | Unset _ => NoReturn
  end.

End BN.

(** ** JavaScript numbers *)

(** IEEE 754 binary64 arithmetic and the conversions between numbers and
    strings that the component uses: [parseFloat], [toFixed(3)],
    [Math.max], [*], [/], [+] and the falsy test of [||]. *)
Module Number.

Import JSString.

Definition prec : Z := 53.
Definition emax : Z := 1024.

Definition zero : spec_float := S754_zero false.

Definition mul : spec_float -> spec_float -> spec_float := SFmul prec emax.
Definition div : spec_float -> spec_float -> spec_float := SFdiv prec emax.
Definition add : spec_float -> spec_float -> spec_float := SFadd prec emax.

Definition is_finite (x : spec_float) : bool :=
  match x with
  | S754_zero _ | S754_finite _ _ _ => true
  | S754_infinity _ | S754_nan => false
  end.

Definition is_zero (x : spec_float) : bool :=
  match x with
  | S754_zero _ => true
  | _ => false
  end.

(** Greater than zero: a positive finite number or [Infinity]. *)
Definition is_positive (x : spec_float) : bool :=
  match x with
  | S754_finite false _ _ | S754_infinity false => true
  | _ => false
  end.

(** The sign bit is clear, or the number is [NaN]. *)
Definition not_negative (x : spec_float) : bool :=
  match x with
  | S754_zero s | S754_infinity s | S754_finite s _ _ => negb s
  | S754_nan => true
  end.

Definition same (x y : spec_float) : bool :=
  match x, y with
  | S754_zero s1, S754_zero s2 => Bool.eqb s1 s2
  | S754_infinity s1, S754_infinity s2 => Bool.eqb s1 s2
  | S754_nan, S754_nan => true
  | S754_finite s1 m1 e1, S754_finite s2 m2 e2 =>
      Bool.eqb s1 s2 && (m1 =? m2)%positive && (e1 =? e2)
  | _, _ => false
  end.

(** The binary64 value nearest to [p / q], ties to even, for [0 <= p]
    and [0 < q], with the sign [neg]. *)
Definition of_ratio (neg : bool) (p q : Z) : spec_float :=
  if p =? 0 then S754_zero neg
  else
    let '(mz, ez, lz) := SFdiv_core_binary prec emax p 0 q 0 in
    binary_round_aux prec emax neg mz ez lz.

(** The binary64 value nearest to [m * 10 ^ e], for [0 <= m]. *)
Definition of_decimal (neg : bool) (m e : Z) : spec_float :=
  if 0 <=? e then of_ratio neg (m * 10 ^ e) 1 else of_ratio neg m (10 ^ (- e)).

Definition of_Z (n : Z) : spec_float := of_ratio (n <? 0) (Z.abs n) 1.

(** An optional sign at the head of a string. *)
Definition span_sign (s : string) : bool * string :=
  match s with
  | String "-"%char r => (true, r)
  | String "+"%char r => (false, r)
  | _ => (false, s)
  end.

(** The exponent part [e], [e+] or [e-] followed by digits; absent or
    incomplete, it counts as zero. *)
Definition exponent_part (s : string) : Z :=
  match s with
  | String c r =>
      if Ascii.eqb c "e" || Ascii.eqb c "E"
      then
        let '(neg, r') := span_sign r in
        let '(d, _) := span_digits r' in
        match d with
        | EmptyString => 0
        | _ => if neg then - digits_value d else digits_value d
        end
      else 0
  | EmptyString => 0
  end.

(** The number denoted by the longest prefix of [s] that is an unsigned
    decimal literal, with the sign [neg]; [NaN] when there is none. *)
Definition parse_unsigned (neg : bool) (s : string) : spec_float :=
  if String.prefix "Infinity" s then S754_infinity neg
  else
    let '(ip, r1) := span_digits s in
    let '(fp, r2) :=
      match r1 with
      | String "."%char r => span_digits r
      | _ => (EmptyString, r1)
      end in
    match ip +:+ fp with
    | EmptyString => S754_nan
    | ds =>
        of_decimal neg (digits_value ds)
          (exponent_part r2 - Z.of_nat (String.length fp))
    end.

(** [parseFloat(s)]: leading white space is skipped, then the longest
    prefix that is a decimal literal is converted; [NaN] when there is
    none. *)
Definition parseFloat (s : string) : spec_float :=
  let '(neg, s) := span_sign (trim_start s) in parse_unsigned neg s.

(** [x || 0.0] for an optional number: [undefined], [0], [-0] and [NaN]
    are falsy. *)
Definition or_zero (x : option spec_float) : spec_float :=
  match x with
  | None => zero
  | Some (S754_zero _) => zero
  | Some S754_nan => zero
  | Some v => v
  end.

(** [Math.max(a, b)]. *)
Definition max (a b : spec_float) : spec_float :=
  match a, b with
  | S754_nan, _ | _, S754_nan => S754_nan
  | S754_zero true, S754_zero false => b
  | _, _ => if SFltb a b then b else a
  end.

(** *** Number to string *)

(** The candidates [(s, n)] with [k] digits for the shortest decimal
    that reads back as [x]: [s * 10 ^ (n - k)] must round to [x].
    [N] is the integer value of [x] and [d] its number of digits. *)
Definition candidates (x : spec_float) (N d k : Z) : list (Z * Z) :=
  let lo := N / 10 ^ (d - k) in
  filter
    (fun '(s, n) =>
       (10 ^ (k - 1) <=? s) && (s <? 10 ^ k) && same (of_Z (s * 10 ^ (n - k))) x)
    [(lo, d); (lo + 1, d); (10 ^ (k - 1), d + 1)].

(** Among candidates the one nearest to [N]; of two equally near, the
    even one. *)
Definition nearer (N k : Z) (a b : Z * Z) : Z * Z :=
  let dist := fun '(s, n) => Z.abs (s * 10 ^ (n - k) - N) in
  if dist a <? dist b then a
  else if dist b <? dist a then b
  else if Z.even (fst a) then a else b.

Fixpoint shortest (fuel : nat) (x : spec_float) (N d k : Z) : Z * Z * Z :=
  match candidates x N d k with
  | c :: cs => let '(s, n) := fold_left (nearer N k) cs c in (s, n, k)
  | [] =>
      match fuel with
      | O => (N, d, d)
      | S fuel' => shortest fuel' x N d (k + 1)
      end
  end.

(** [Number::toString(x)] for a finite [x >= 10 ^ 21], which is an
    integer [N]: the shortest digits [s] that read back as [x], in
    exponential notation. *)
Definition toString_large (x : spec_float) (N : Z) : string :=
  let d := Z.of_nat (String.length (decimal_string N)) in
  let '(s, n, k) := shortest 17 x N d 1 in
  let ds := decimal_string s in
  let e := "e+" +:+ decimal_string (n - 1) in
  match ds with
  | String c EmptyString => ds +:+ e
  | String c rest => String c ("." +:+ rest) +:+ e
  | EmptyString => e
  end.

(** The integer nearest to [1000 * num / den]; of two equally near, the
    larger. *)
Definition nearest_thousandth (num den : Z) : Z :=
  (2 * 1000 * num + den) / (2 * den).

(** The exact value [m * 2 ^ e] of a finite number as a fraction
    [num / den]. *)
Definition magnitude (m : positive) (e : Z) : Z * Z :=
  if 0 <=? e then (Zpos m * 2 ^ e, 1) else (Zpos m, 2 ^ (- e)).

(** Zero, or finite and below [10 ^ 21] in magnitude. *)
Definition below_1e21 (x : spec_float) : bool :=
  match x with
  | S754_zero _ => true
  | S754_finite _ m e => let '(num, den) := magnitude m e in num <? 10 ^ 21 * den
  | S754_infinity _ | S754_nan => false
  end.

(** [x.toFixed(3)]. *)
Definition toFixed3 (x : spec_float) : string :=
  match x with
  | S754_nan => "NaN"
  | S754_infinity s => if s then "-Infinity" else "Infinity"
  | S754_zero _ => "0.000"
  | S754_finite s m e =>
      let sign := if s then "-" else "" in
      let '(num, den) := magnitude m e in
      if 10 ^ 21 * den <=? num
      then sign +:+ toString_large (S754_finite false m e) (num / den)
      else
        let n := nearest_thousandth num den in
        let m := padStart (decimal_string n) 4 "0" in
        let k := String.length m in
        sign +:+ slice_to m (k - 3) +:+ "." +:+ slice_from m (k - 3)
  end.

End Number.

(** ** Tokens and trades *)

Record Token : Type := {
  address : string;
  symbol : string;
  decimals : nat;
  price : option spec_float
}.

Record MultiSwap : Type := {
  origin : string;
  token_in : string;
  token_out : string;
  path : list string;
  amount_in : string;
  amount_out : string;
  block_num : Z;
  extrinsic_index : Z
}.

(** [new Map(data.map(token => [token.address, token]))] in [fetchTokens]:
    a later record replaces an earlier one with the same address. *)
Definition tokenMap_of (data : list Token) : gmap string Token :=
  fold_left (fun m token => <[address token := token]> m) data ∅.

(** [result.data.sort((a, b) => b.block_num - a.block_num)] in
    [fetchTrades]: a stable sort by decreasing block number.  A trade is
    put in front of the first trade whose block number is not larger. *)
Fixpoint insertTrade (x : MultiSwap) (l : list MultiSwap) : list MultiSwap :=
  match l with
  | [] => [x]
  | y :: l' =>
      if block_num y <=? block_num x then x :: y :: l' else y :: insertTrade x l'
  end.

Definition sortTrades (data : list MultiSwap) : list MultiSwap :=
  fold_right insertTrade [] data.

(** The order the sort establishes: the trade of the larger block number
    comes first. *)
Definition newer_first (a b : MultiSwap) : Prop := block_num b <= block_num a.

(** [array.join(sep)]. *)
Fixpoint join (sep : string) (array : list string) : string :=
  match array with
  | [] => EmptyString
  | [x] => x
  | x :: rest => x +:+ sep +:+ join sep rest
  end.

(** The cells of one row of the table. *)
Record Row : Type := {
  cell_block_num : Z;
  cell_user : string;
  cell_sell_amount : string;
  cell_buy_amount : string;
  cell_path : string;
  cell_volume : string
}.

Section Component.

Import JSString.

(** The token map held in the component's state. *)
Variable tokenMap : gmap string Token.

(** [tokenMap.get(address)?.symbol || address]: the empty symbol is falsy. *)
Definition getSymbol (address : string) : string :=
  match tokenMap !! address with
  | Some token =>
      match symbol token with
      | EmptyString => address
      | s => s
      end
  | None => address
  end.

Definition formatAmountWithToken (amount address : string) : result string :=
  match tokenMap !! address with
  | None => Ok amount
  | Some token =>
      let decimals := decimals token in
      let symbol := symbol token in
      let* bnAmount := BN.of_string amount in
      let divisor := BN.pow (BN.of_nat 10) (BN.of_nat decimals) in
      let* integerPart := BN.toString (BN.div bnAmount divisor) in
      let* remainder := BN.toString (BN.mod_ bnAmount divisor) in
      let fractionalPart := padStart remainder decimals "0" in
      let fractionalPart :=
        if (3 <? String.length fractionalPart)%nat
        then slice_to fractionalPart 3
        else fractionalPart in
      Ok (integerPart +:+ "." +:+ fractionalPart +:+ " " +:+ symbol)
  end.

Definition calculateVolume (trade : MultiSwap) : result string :=
  let tokenIn := tokenMap !! token_in trade in
  let tokenOut := tokenMap !! token_out trade in

  let priceIn := Number.or_zero (tokenIn ≫= price) in
  let priceOut := Number.or_zero (tokenOut ≫= price) in

  let* amountIn := BN.of_string (amount_in trade) in
  let* amountOut := BN.of_string (amount_out trade) in

  let divisorIn := BN.pow (BN.of_nat 10) (BN.of_nat (default 0%nat (decimals <$> tokenIn))) in
  let divisorOut := BN.pow (BN.of_nat 10) (BN.of_nat (default 0%nat (decimals <$> tokenOut))) in

  let* amountInText := BN.toString amountIn in
  let humanAmountInFloat :=
    Number.div (Number.parseFloat amountInText)
               (Number.parseFloat (BN.decimal divisorIn)) in
  let* amountOutText := BN.toString amountOut in
  let humanAmountOutFloat :=
    Number.div (Number.parseFloat amountOutText)
               (Number.parseFloat (BN.decimal divisorOut)) in

  let valueIn := Number.mul humanAmountInFloat priceIn in
  let valueOut := Number.mul humanAmountOutFloat priceOut in

  let volume := Number.max valueIn valueOut in

  Ok (Number.toFixed3 volume).

(** [trades.reduce(callback, initial)] with a callback that may throw
    or not return: the first call that does not return a value ends the
    pass. *)
Fixpoint reduce {A B : Type} (callback : B -> A -> result B)
    (array : list A) (acc : B) : result B :=
  match array with
  | [] => Ok acc
  | x :: rest => let* acc' := callback acc x in reduce callback rest acc'
  end.

(** The value [calculateTotalVolume] hands to [setTotalVolume]. *)
Definition calculateTotalVolume (trades : list MultiSwap) : result spec_float :=
  reduce
    (fun acc trade =>
       let* v := calculateVolume trade in
       Ok (Number.add acc (Number.parseFloat v)))
    trades Number.zero.

(** One [<tr>] of the table: the cells are evaluated in order, and a
    cell that throws or does not return ends the rendering. *)
Definition tableRow (trade : MultiSwap) : result Row :=
  let* sell := formatAmountWithToken (amount_in trade) (token_in trade) in
  let* buy := formatAmountWithToken (amount_out trade) (token_out trade) in
  let route := join " -> " (map getSymbol (path trade)) in
  let* volume := calculateVolume trade in
  Ok {| cell_block_num := block_num trade; cell_user := origin trade;
        cell_sell_amount := sell; cell_buy_amount := buy;
        cell_path := route; cell_volume := volume |}.

(** The heading shows [totalVolume.toFixed(3)]. *)
Definition totalVolumeText (trades : list MultiSwap) : result string :=
  let* total := calculateTotalVolume trades in
  Ok (Number.toFixed3 total).

End Component.

(** ** The quantities [calculateVolume] computes *)

(** The expressions [calculateVolume] evaluates on the way to its result,
  named so that statements can refer to them. *)

(** [parseFloat(amount.toString()) / parseFloat(divisor.toString())]
    with [divisor = 10 ^ (token?.decimals || 0)], for an amount that is
    set to the integer [amount]. *)
Definition humanAmountFloat (token : option Token) (amount : Z) : spec_float :=
  Number.div
    (Number.parseFloat (BN.decimal amount))
    (Number.parseFloat
       (BN.decimal (BN.pow (BN.of_nat 10) (BN.of_nat (default 0%nat (decimals <$> token)))))).

(** [humanAmountFloat * (token?.price || 0.0)]. *)
Definition legValue (token : option Token) (amount : Z) : spec_float :=
  Number.mul (humanAmountFloat token amount) (Number.or_zero (token ≫= price)).

(** [Math.max(valueIn, valueOut)], the number whose [toFixed(3)] is
    returned. *)
Definition volumeNumber (tokenIn tokenOut : option Token) (amountIn amountOut : Z)
    : spec_float :=
  Number.max (legValue tokenIn amountIn) (legValue tokenOut amountOut).

(** A trade neither leg of which has a price, with amounts that are
    strings of digits and human amounts that are finite. *)
Definition unpriced (tokenMap : gmap string Token) (t : MultiSwap) : Prop :=
  JSString.all_digits (amount_in t) = true
  /\ JSString.all_digits (amount_out t) = true
  /\ tokenMap !! token_in t ≫= price = None
  /\ tokenMap !! token_out t ≫= price = None
  /\ Number.is_finite
       (humanAmountFloat (tokenMap !! token_in t)
          (JSString.digits_value (amount_in t))) = true
  /\ Number.is_finite
       (humanAmountFloat (tokenMap !! token_out t)
          (JSString.digits_value (amount_out t))) = true.

(** ** Sample data *)

Module Examples.

Definition token (a s : string) (d : nat) (p : option spec_float) : Token :=
  {| address := a; symbol := s; decimals := d; price := p |}.

Definition trade (tin tout ain aout : string) : MultiSwap :=
  {| origin := "5Origin"; token_in := tin; token_out := tout;
     path := [tin; tout]; amount_in := ain; amount_out := aout;
     block_num := 100; extrinsic_index := 2 |}.

(** A token with 18 decimals priced at 2.5, one with 6 decimals priced
    at 1, one without decimals and without price, and one with 4
    decimals priced at 1. *)
Definition registry : gmap string Token :=
  tokenMap_of
    [ token "A" "TOK" 18 (Some (Number.parseFloat "2.5"));
      token "U" "USD" 6 (Some (Number.parseFloat "1"));
      token "C" "CNT" 0 None;
      token "D" "DEC" 4 (Some (Number.parseFloat "1")) ].

(** Ten units of ["A"] (25 at its price) for 24 units of ["U"]. *)
Definition swap_ten : MultiSwap :=
  trade "A" "U" "10000000000000000000" "24000000".

(** An amount that is not an integer. *)
Definition swap_malformed : MultiSwap := trade "A" "U" "1.5" "1".

(** Four ten-thousandths of ["D"], bought with a token without price. *)
Definition swap_small : MultiSwap := trade "D" "Z" "4" "1".

(** Six hundred quintillion units of ["U"]: a volume of [6 * 10 ^ 20]. *)
Definition swap_large : MultiSwap :=
  trade "U" "Z" "600000000000000000000000000" "1".

(** The digit one followed by 309 zeros. *)
Definition huge_amount : string := String "1" (JSString.repeat_char "0" 309).

End Examples.

(** * Properties *)

(** ** Digit strings *)

#[local] Arguments String.append : simpl nomatch.

Section Digits.

Import JSString.

Lemma is_digit_range (c : ascii) :
  is_digit c = true <-> 0 <= digit_of c <= 9.
Proof.
  unfold is_digit, digit_of.
  rewrite andb_true_iff, !Nat.leb_le. lia.
Qed.

Lemma is_digit_digit_char (d : Z) :
  0 <= d <= 9 -> is_digit (digit_char d) = true /\ digit_of (digit_char d) = d.
Proof.
  intros Hd. unfold is_digit, digit_of, digit_char.
  rewrite nat_ascii_embedding by lia.
  rewrite andb_true_iff, !Nat.leb_le. lia.
Qed.

Lemma is_digit_not_space (c : ascii) : is_digit c = true -> is_space c = false.
Proof.
  unfold is_digit, is_space. rewrite andb_true_iff, !Nat.leb_le.
  intros [H1 H2].
  rewrite !orb_false_iff, andb_false_iff, !Nat.eqb_neq, !Nat.leb_gt. lia.
Qed.

Lemma is_digit_neq (c sep : ascii) :
  is_digit c = true -> is_digit sep = false -> Ascii.eqb c sep = false.
Proof.
  intros Hc Hs. apply Ascii.eqb_neq. intros ->. congruence.
Qed.

Lemma length_app (s1 s2 : string) :
  String.length (s1 +:+ s2) = (String.length s1 + String.length s2)%nat.
Proof. induction s1 as [|c s1 IH]; simpl; [reflexivity | now rewrite IH]. Qed.

Lemma length_repeat_char (c : ascii) (n : nat) :
  String.length (repeat_char c n) = n.
Proof. induction n as [|n IH]; simpl; [reflexivity | now rewrite IH]. Qed.

Lemma all_digits_app (s1 s2 : string) :
  all_digits (s1 +:+ s2) = all_digits s1 && all_digits s2.
Proof.
  induction s1 as [|c s1 IH]; simpl; [reflexivity |].
  now rewrite IH, andb_assoc.
Qed.

Lemma all_digits_repeat_zero (n : nat) : all_digits (repeat_char "0" n) = true.
Proof. induction n as [|n IH]; simpl; [reflexivity | exact IH]. Qed.

Lemma digits_value_repeat_zero (n : nat) : digits_value (repeat_char "0" n) = 0.
Proof. induction n as [|n IH]; simpl; [reflexivity | now rewrite IH]. Qed.

Lemma digits_value_app (s1 s2 : string) :
  digits_value (s1 +:+ s2)
  = digits_value s1 * 10 ^ Z.of_nat (String.length s2) + digits_value s2.
Proof.
  induction s1 as [|c s1 IH]; simpl; [lia |].
  rewrite IH, length_app, Nat2Z.inj_add, Z.pow_add_r by lia. ring.
Qed.

Lemma digits_value_bound (s : string) :
  all_digits s = true -> 0 <= digits_value s < 10 ^ Z.of_nat (String.length s).
Proof.
  induction s as [|c s IH]; simpl; [lia |].
  rewrite andb_true_iff, is_digit_range. intros [Hc Hs].
  specialize (IH Hs).
  rewrite Nat2Z.inj_succ, Z.pow_succ_r by lia. nia.
Qed.

(** *** Rendering a number in decimal *)

Lemma to_digits_all_digits (fuel : nat) (n : Z) (acc : string) :
  0 <= n -> all_digits acc = true -> all_digits (to_digits fuel n acc) = true.
Proof.
  revert n acc. induction fuel as [|fuel IH]; intros n acc Hn Hacc; simpl; [exact Hacc |].
  assert (Hd : all_digits (String (digit_char (n mod 10)) acc) = true).
  { cbn [all_digits]. rewrite Hacc, andb_true_r.
    apply is_digit_digit_char. pose proof (Z.mod_pos_bound n 10). lia. }
  destruct (n / 10 =? 0); [exact Hd |].
  apply IH; [apply Z.div_pos; lia | exact Hd].
Qed.

Lemma to_digits_value (fuel : nat) (n : Z) (acc : string) :
  0 <= n < 2 ^ Z.of_nat fuel ->
  digits_value (to_digits fuel n acc)
  = n * 10 ^ Z.of_nat (String.length acc) + digits_value acc.
Proof.
  revert n acc. induction fuel as [|fuel IH]; intros n acc Hn.
  - cbn [to_digits]. change (2 ^ Z.of_nat 0) with 1 in Hn.
    assert (n = 0) by lia. subst n. lia.
  - cbn [to_digits].
    assert (Hm : 0 <= n mod 10 <= 9) by (pose proof (Z.mod_pos_bound n 10); lia).
    assert (Hv : digits_value (String (digit_char (n mod 10)) acc)
                 = n mod 10 * 10 ^ Z.of_nat (String.length acc) + digits_value acc).
    { cbn [digits_value]. now rewrite (proj2 (is_digit_digit_char _ Hm)). }
    pose proof (Z.div_mod n 10 ltac:(lia)) as Hdm.
    destruct (n / 10 =? 0) eqn:Hq.
    + apply Z.eqb_eq in Hq. rewrite Hv. f_equal. f_equal. lia.
    + rewrite IH.
      * rewrite Hv. cbn [String.length].
        rewrite Nat2Z.inj_succ, Z.pow_succ_r by lia.
        set (p := 10 ^ Z.of_nat (String.length acc)).
        rewrite Hdm at 3. ring.
      * rewrite Nat2Z.inj_succ, Z.pow_succ_r in Hn by lia.
        split; [apply Z.div_pos; lia |].
        apply Z.div_lt_upper_bound; lia.
Qed.

Lemma to_digits_length (fuel : nat) (n : Z) (acc : string) (d : nat) :
  0 <= n < 10 ^ Z.of_nat d -> (1 <= d)%nat ->
  (String.length (to_digits (S fuel) n acc) <= d + String.length acc)%nat.
Proof.
  revert n acc d. induction fuel as [|fuel IH]; intros n acc d Hn Hd.
  - cbn [to_digits]. destruct (n / 10 =? 0); simpl; lia.
  - cbn [to_digits]. destruct (n / 10 =? 0) eqn:Hq; [simpl; lia |].
    apply Z.eqb_neq in Hq.
    destruct d as [|[|d]]; [lia | |].
    + exfalso. apply Hq. apply Z.div_small. simpl in Hn. lia.
    + specialize (IH (n / 10) (String (digit_char (n mod 10)) acc) (S d)).
      cbn [to_digits] in IH. cbn [String.length] in IH.
      etransitivity; [apply IH |]; [| lia | lia].
      rewrite (Nat2Z.inj_succ (S d)), Z.pow_succ_r in Hn by lia.
      split; [apply Z.div_pos; lia |].
      apply Z.div_lt_upper_bound; lia.
Qed.

Lemma to_digits_nonempty (fuel : nat) (n : Z) (acc : string) :
  (1 <= String.length (to_digits (S fuel) n acc))%nat.
Proof.
  revert n acc. induction fuel as [|fuel IH]; intros n acc.
  - cbn [to_digits]. destruct (n / 10 =? 0); simpl; lia.
  - cbn [to_digits]. destruct (n / 10 =? 0); [simpl; lia |].
    apply (IH (n / 10) (String (digit_char (n mod 10)) acc)).
Qed.

Lemma log2_fuel (n : Z) : 0 <= n -> 0 <= n < 2 ^ Z.of_nat (S (Z.to_nat (Z.log2 n))).
Proof.
  intros Hn. split; [exact Hn |].
  rewrite Nat2Z.inj_succ, Z2Nat.id by apply Z.log2_nonneg.
  destruct (Z.eq_dec n 0) as [-> | Hz]; [reflexivity |].
  apply Z.log2_spec. lia.
Qed.

Lemma decimal_string_all_digits (n : Z) :
  0 <= n -> all_digits (decimal_string n) = true.
Proof. intros Hn. now apply to_digits_all_digits. Qed.

Lemma decimal_string_value (n : Z) :
  0 <= n -> digits_value (decimal_string n) = n.
Proof.
  intros Hn. unfold decimal_string.
  rewrite to_digits_value by now apply log2_fuel.
  simpl. lia.
Qed.

Lemma decimal_string_length (n : Z) (d : nat) :
  0 <= n < 10 ^ Z.of_nat d -> (1 <= d)%nat ->
  (1 <= String.length (decimal_string n) <= d)%nat.
Proof.
  intros Hn Hd. unfold decimal_string. split; [apply to_digits_nonempty |].
  pose proof (to_digits_length (Z.to_nat (Z.log2 n)) n EmptyString d Hn Hd) as H.
  simpl in H. simpl. lia.
Qed.

End Digits.

Section Slices.

Import JSString.

Lemma slice_to_all (s : string) (k : nat) :
  (String.length s <= k)%nat -> slice_to s k = s.
Proof.
  unfold slice_to. revert k. induction s as [|c s IH]; intros [|k] Hk; simpl in *;
    try reflexivity; try lia.
  f_equal. apply IH. lia.
Qed.

Lemma slice_split (s : string) (k : nat) :
  s = slice_to s k +:+ slice_from s k.
Proof.
  unfold slice_to. revert k. induction s as [|c s IH]; intros [|k]; simpl;
    try reflexivity.
  f_equal. apply IH.
Qed.

Lemma slice_to_length (s : string) (k : nat) :
  (k <= String.length s)%nat -> String.length (slice_to s k) = k.
Proof.
  unfold slice_to. revert k. induction s as [|c s IH]; intros [|k] Hk; simpl in *;
    try reflexivity; try lia.
  f_equal. apply IH. lia.
Qed.

Lemma slice_from_length (s : string) (k : nat) :
  String.length (slice_from s k) = (String.length s - k)%nat.
Proof.
  revert k. induction s as [|c s IH]; intros [|k]; simpl; try reflexivity.
  apply IH.
Qed.

Lemma slice_all_digits (s : string) (k : nat) :
  all_digits s = true ->
  all_digits (slice_to s k) = true /\ all_digits (slice_from s k) = true.
Proof.
  intros Hs. rewrite (slice_split s k), all_digits_app in Hs.
  now apply andb_true_iff in Hs.
Qed.

(** Cutting a digit string after [k] characters divides the number it
    denotes by the power of ten of what is dropped, rounding down. *)
Lemma slice_to_value (s : string) (k : nat) :
  all_digits s = true -> (k <= String.length s)%nat ->
  digits_value (slice_to s k)
  = digits_value s / 10 ^ Z.of_nat (String.length s - k).
Proof.
  intros Hs Hk.
  destruct (slice_all_digits s k Hs) as [_ Hr].
  pose proof (digits_value_bound _ Hr) as Hb.
  rewrite slice_from_length in Hb.
  rewrite (slice_split s k) at 2.
  rewrite digits_value_app, slice_from_length.
  apply Z.div_unique with (r := digits_value (slice_from s k)); lia.
Qed.

Lemma before_digits (ds rest : string) (sep : ascii) :
  all_digits ds = true -> is_digit sep = false ->
  before sep (ds +:+ String sep rest) = ds.
Proof.
  intros Hds Hsep. induction ds as [|c ds IH]; simpl.
  - now rewrite Ascii.eqb_refl.
  - simpl in Hds. apply andb_true_iff in Hds as [Hc Hds].
    rewrite (is_digit_neq c sep Hc Hsep). f_equal. now apply IH.
Qed.

Lemma padStart_length (s : string) (n : nat) (c : ascii) :
  (String.length s <= n)%nat -> String.length (padStart s n c) = n.
Proof.
  intros H. unfold padStart. rewrite length_app, length_repeat_char. lia.
Qed.

Lemma padStart_zero_digits (s : string) (n : nat) :
  all_digits s = true ->
  all_digits (padStart s n "0") = true
  /\ digits_value (padStart s n "0") = digits_value s.
Proof.
  intros H. unfold padStart.
  rewrite all_digits_app, all_digits_repeat_zero, H, digits_value_app,
    digits_value_repeat_zero.
  split; [reflexivity | lia].
Qed.

End Slices.

(** ** The bn.js constructor *)

Section BNFacts.

Import JSString.

Lemma parseBase_step (ch : ascii) :
  let c := Z.of_nat (nat_of_ascii ch) - 48 in
  let b := if 49 <=? c then c - 49 + 10 else if 17 <=? c then c - 17 + 10 else c in
  ((0 <=? c) && (b <? 10) = is_digit ch)
  /\ (is_digit ch = true -> b = digit_of ch).
Proof.
  intros c b. unfold is_digit, digit_of. subst b c.
  set (n := nat_of_ascii ch).
  destruct (49 <=? Z.of_nat n - 48) eqn:H1; [| destruct (17 <=? Z.of_nat n - 48) eqn:H2].
  - apply Z.leb_le in H1. split.
    + apply eq_true_iff_eq. rewrite !andb_true_iff, Z.leb_le, Z.ltb_lt, !Nat.leb_le. lia.
    + rewrite andb_true_iff, !Nat.leb_le. lia.
  - apply Z.leb_le in H2. split.
    + apply eq_true_iff_eq. rewrite !andb_true_iff, Z.leb_le, Z.ltb_lt, !Nat.leb_le. lia.
    + rewrite andb_true_iff, !Nat.leb_le. lia.
  - apply Z.leb_gt in H1, H2. split.
    + apply eq_true_iff_eq. rewrite !andb_true_iff, Z.leb_le, Z.ltb_lt, !Nat.leb_le. lia.
    + reflexivity.
Qed.

Lemma parseBase_digits (s : string) (r : Z) :
  all_digits s = true ->
  BN.parseBase s r = Ok (r * 10 ^ Z.of_nat (String.length s) + digits_value s).
Proof.
  revert r. induction s as [|ch s IH]; intros r Hs.
  - simpl. f_equal. lia.
  - cbn [all_digits] in Hs. apply andb_true_iff in Hs as [Hc Hs].
    cbn [BN.parseBase].
    destruct (parseBase_step ch) as [Hcond Hb]. cbv zeta in Hcond, Hb.
    rewrite Hcond, Hc, (Hb Hc), (IH _ Hs).
    cbn [digits_value String.length].
    rewrite Nat2Z.inj_succ, Z.pow_succ_r by lia. f_equal. ring.
Qed.

Lemma parseBase_invalid (s : string) (r : Z) :
  all_digits s = false ->
  BN.parseBase s r = Throw (Error "Invalid character").
Proof.
  revert r. induction s as [|ch s IH]; intros r Hs; [discriminate |].
  cbn [all_digits] in Hs. cbn [BN.parseBase].
  destruct (parseBase_step ch) as [Hcond Hb]. cbv zeta in Hcond, Hb.
  rewrite Hcond.
  destruct (is_digit ch) eqn:Hc; [| reflexivity].
  rewrite (Hb eq_refl). apply IH. exact Hs.
Qed.

Lemma remove_spaces_digits (s : string) :
  all_digits s = true -> remove_spaces s = s.
Proof.
  induction s as [|c s IH]; simpl; [reflexivity |].
  intros H. apply andb_true_iff in H as [Hc Hs].
  now rewrite (is_digit_not_space c Hc), IH.
Qed.

Lemma unsigned_part_digits (s : string) :
  all_digits s = true -> BN.unsigned_part s = s.
Proof.
  intros H. unfold BN.unsigned_part. rewrite (remove_spaces_digits s H).
  destruct s as [|c s]; [reflexivity |].
  simpl in H. apply andb_true_iff in H as [Hc _].
  destruct c as [[] [] [] [] [] [] [] []]; try reflexivity; discriminate.
Qed.

(** How the constructor ends, by what is left of the string once white
    space and one leading minus sign are removed. *)
Lemma of_string_cases (s : string) :
  match BN.of_string s with
  | Ok (BN.Int _) =>
      all_digits (BN.unsigned_part s) = true /\ BN.leaves_unset s = false
  | Ok (BN.Unset _) => BN.leaves_unset s = true
  | Throw e =>
      e = Error "Invalid character" /\ all_digits (BN.unsigned_part s) = false
  | NoReturn => False
  end.
Proof.
  unfold BN.of_string, BN.leaves_unset, BN.unsigned_part.
  destruct s as [|c0 s0]; [split; reflexivity |].
  cbn [String.eqb negb andb].
  assert (H : forall d, d <> "" ->
            match (let* v := BN.parseBase d 0 in Ok (BN.Int v)) with
            | Ok (BN.Int _) => all_digits d = true /\ String.eqb d "" = false
            | Ok (BN.Unset _) => String.eqb d "" = true
            | Throw e => e = Error "Invalid character" /\ all_digits d = false
            | NoReturn => False
            end).
  { intros d Hd. destruct (all_digits d) eqn:Ed.
    - rewrite parseBase_digits by exact Ed. cbn [bind].
      split; [reflexivity | now apply String.eqb_neq].
    - rewrite parseBase_invalid by exact Ed. now split. }
  assert (Hneg : forall d, d <> "" ->
            match (let* v := BN.parseBase d 0 in Ok (BN.Int (- v))) with
            | Ok (BN.Int _) => all_digits d = true /\ String.eqb d "" = false
            | Ok (BN.Unset _) => String.eqb d "" = true
            | Throw e => e = Error "Invalid character" /\ all_digits d = false
            | NoReturn => False
            end).
  { intros d Hd. destruct (all_digits d) eqn:Ed.
    - rewrite parseBase_digits by exact Ed. cbn [bind].
      split; [reflexivity | now apply String.eqb_neq].
    - rewrite parseBase_invalid by exact Ed. now split. }
  destruct (remove_spaces (String c0 s0)) as [|c r]; [reflexivity |].
  destruct r as [|c' r'].
  - destruct c as [[] [] [] [] [] [] [] []];
      try (apply (H (String _ "")); discriminate); reflexivity.
  - destruct c as [[] [] [] [] [] [] [] []];
      try (apply (H (String _ (String c' r'))); discriminate).
    apply (Hneg (String c' r')). discriminate.
Qed.

(** A string of decimal digits is accepted and denotes its value. *)
Lemma of_string_digits (s : string) :
  all_digits s = true -> BN.of_string s = Ok (BN.Int (digits_value s)).
Proof.
  intros H. unfold BN.of_string.
  destruct s as [|c s]; [reflexivity |].
  rewrite (remove_spaces_digits _ H).
  assert (Hc : is_digit c = true) by (simpl in H; now apply andb_true_iff in H).
  pose proof (parseBase_digits _ 0 H) as Hp.
  assert (Hv : (let* v := BN.parseBase (String c s) 0 in Ok (BN.Int v))
               = Ok (BN.Int (digits_value (String c s)))).
  { rewrite Hp. cbn [bind]. do 2 f_equal. }
  destruct c as [[] [] [] [] [] [] [] []]; try discriminate Hc; exact Hv.
Qed.

(** The constructor throws exactly when, white space and one leading
    minus sign apart, some character is not a decimal digit. *)
Lemma of_string_ok_iff (s : string) :
  is_ok (BN.of_string s) = all_digits (BN.unsigned_part s).
Proof.
  pose proof (of_string_cases s) as H.
  destruct (BN.of_string s) as [[v | b] | e |]; cbn [is_ok].
  - now destruct H as [-> _].
  - unfold BN.leaves_unset in H. apply andb_true_iff in H as [_ H].
    apply String.eqb_eq in H. now rewrite H.
  - now destruct H as [_ ->].
  - destruct H.
Qed.

Lemma of_string_throw (s : string) :
  all_digits (BN.unsigned_part s) = false ->
  BN.of_string s = Throw (Error "Invalid character").
Proof.
  intros Hs. pose proof (of_string_cases s) as H.
  pose proof (of_string_ok_iff s) as Hok. rewrite Hs in Hok.
  destruct (BN.of_string s) as [[v | b] | e |]; try discriminate Hok.
  - now destruct H as [-> _].
  - destruct H.
Qed.

Lemma of_string_unset (s : string) :
  BN.leaves_unset s = true -> exists b, BN.of_string s = Ok (BN.Unset b).
Proof.
  intros Hs. pose proof (of_string_cases s) as H.
  destruct (BN.of_string s) as [[v | b] | e |].
  - destruct H as [_ H]. congruence.
  - now exists b.
  - destruct H as [_ H]. unfold BN.leaves_unset in Hs.
    apply andb_true_iff in Hs as [_ Hs]. apply String.eqb_eq in Hs.
    rewrite Hs in H. discriminate.
  - destruct H.
Qed.

Lemma of_string_int (s : string) :
  all_digits (BN.unsigned_part s) = true -> BN.leaves_unset s = false ->
  exists v, BN.of_string s = Ok (BN.Int v).
Proof.
  intros Hd Hs. pose proof (of_string_cases s) as H.
  destruct (BN.of_string s) as [[v | b] | e |].
  - now exists v.
  - congruence.
  - destruct H as [_ H]. congruence.
  - destruct H.
Qed.

End BNFacts.

Section Canonical.

Import JSString.

Lemma app_assoc_string (s1 s2 s3 : string) :
  (s1 +:+ s2) +:+ s3 = s1 +:+ (s2 +:+ s3).
Proof. induction s1 as [|c s1 IH]; simpl; [reflexivity | now rewrite IH]. Qed.

Lemma app_empty_r (s : string) : s +:+ "" = s.
Proof. induction s as [|c s IH]; simpl; [reflexivity | now rewrite IH]. Qed.

Lemma string_snoc_cases (s : string) :
  s = "" \/ exists s' c, s = s' +:+ String c "".
Proof.
  induction s as [|c s IH]; [now left | right].
  destruct IH as [-> | (s' & c' & ->)].
  - now exists "", c.
  - now exists (String c s'), c'.
Qed.

Lemma string_snoc_ind (P : string -> Prop) :
  P "" -> (forall s c, P s -> P (s +:+ String c "")) -> forall s, P s.
Proof.
  intros Hnil Hsnoc s.
  remember (String.length s) as n eqn:Hn. revert s Hn.
  induction n as [|n IH]; intros s Hn.
  - destruct s; [exact Hnil | discriminate].
  - destruct (string_snoc_cases s) as [-> | (s' & c & ->)]; [exact Hnil |].
    apply Hsnoc, IH. rewrite length_app in Hn. simpl in Hn. lia.
Qed.

Lemma digit_char_digit_of (c : ascii) :
  is_digit c = true -> digit_char (digit_of c) = c.
Proof.
  intros H. unfold is_digit in H. apply andb_true_iff in H as [H1 H2].
  apply Nat.leb_le in H1, H2. unfold digit_char, digit_of.
  replace (48 + Z.to_nat (Z.of_nat (nat_of_ascii c) - 48))%nat with (nat_of_ascii c) by lia.
  apply ascii_nat_embedding.
Qed.

Lemma lead_nonzero_pos (s : string) :
  all_digits s = true -> lead_nonzero s = true -> 0 < digits_value s.
Proof.
  destruct s as [|c s]; [discriminate |].
  cbn [all_digits lead_nonzero digits_value]. intros H Hc.
  apply andb_true_iff in H as [Hd Hs].
  pose proof (digits_value_bound s Hs) as Hb.
  apply negb_true_iff, Ascii.eqb_neq in Hc.
  assert (digit_of c <> 0).
  { intros H0. apply Hc. rewrite <- (digit_char_digit_of c Hd), H0. reflexivity. }
  apply is_digit_range in Hd.
  assert (0 < 10 ^ Z.of_nat (String.length s)) by (apply Z.pow_pos_nonneg; lia).
  nia.
Qed.

Lemma lead_nonzero_snoc (s : string) (c : ascii) :
  s <> "" -> lead_nonzero (s +:+ String c "") = lead_nonzero s.
Proof. destruct s; [congruence | reflexivity]. Qed.

Lemma to_digits_canonical (s : string) :
  all_digits s = true -> lead_nonzero s = true ->
  forall fuel acc, digits_value s < 2 ^ Z.of_nat fuel ->
  to_digits fuel (digits_value s) acc = s +:+ acc.
Proof.
  induction s as [|s c IH] using string_snoc_ind; [discriminate |].
  intros Hall Hlead fuel acc Hfuel.
  pose proof (lead_nonzero_pos _ Hall Hlead) as Hpos.
  rewrite all_digits_app in Hall. apply andb_true_iff in Hall as [Hs Hc].
  cbn [all_digits] in Hc. rewrite andb_true_r in Hc.
  rewrite digits_value_app in Hpos, Hfuel |- *.
  cbn [digits_value String.length] in Hpos, Hfuel |- *.
  change (10 ^ Z.of_nat 1) with 10 in *. change (10 ^ Z.of_nat 0) with 1 in *.
  pose proof (proj1 (is_digit_range c) Hc) as Hr.
  pose proof (digits_value_bound s Hs) as Hb.
  set (v := digits_value s) in *. set (dc := digit_of c) in *.
  destruct fuel as [|fuel].
  { change (2 ^ Z.of_nat 0) with 1 in Hfuel. lia. }
  cbn [to_digits].
  replace ((v * 10 + (dc * 1 + 0)) mod 10) with dc
    by (apply Z.mod_unique with (q := v); lia).
  replace ((v * 10 + (dc * 1 + 0)) / 10) with v
    by (apply Z.div_unique with (r := dc); lia).
  subst dc. rewrite (digit_char_digit_of c Hc).
  rewrite app_assoc_string. cbn [String.append].
  destruct (String.eqb_spec s "") as [Es | Hne].
  - subst s. reflexivity.
  - rewrite (lead_nonzero_snoc s c Hne) in Hlead.
    pose proof (lead_nonzero_pos s Hs Hlead) as Hv. fold v in Hv.
    destruct (v =? 0) eqn:Hz; [apply Z.eqb_eq in Hz; lia |].
    apply IH; [exact Hs | exact Hlead |].
    rewrite Nat2Z.inj_succ, Z.pow_succ_r in Hfuel by lia. lia.
Qed.

(** Rendering the value of a canonical digit string gives the string
    back. *)
Lemma decimal_string_canonical (s : string) :
  is_canonical s = true -> decimal_string (digits_value s) = s.
Proof.
  unfold is_canonical. intros H. apply andb_true_iff in H as [Hall H].
  apply orb_true_iff in H as [H | H].
  - apply String.eqb_eq in H. subst s. reflexivity.
  - unfold decimal_string.
    rewrite (to_digits_canonical s Hall H).
    + apply app_empty_r.
    + apply log2_fuel. pose proof (digits_value_bound s Hall). lia.
Qed.

End Canonical.

(** ** Formatting amounts *)

Section Format.

Import JSString.

Variable tokenMap : gmap string Token.

Lemma decimal_nonneg (a : Z) : 0 <= a -> BN.decimal a = decimal_string a.
Proof.
  intros H. unfold BN.decimal.
  destruct (a <? 0) eqn:E; [apply Z.ltb_lt in E; lia | reflexivity].
Qed.

(** What [formatAmountWithToken] returns for a string of digits and a
    known token. *)
Lemma formatAmountWithToken_digits (raw addr : string) (tok : Token) :
  tokenMap !! addr = Some tok -> all_digits raw = true ->
  let a := digits_value raw in
  let d := decimals tok in
  let padded := padStart (decimal_string (a mod 10 ^ Z.of_nat d)) d "0" in
  formatAmountWithToken tokenMap raw addr
  = Ok (decimal_string (a / 10 ^ Z.of_nat d) +:+ "." +:+ slice_to padded 3
          +:+ " " +:+ symbol tok).
Proof.
  intros Hlook Hraw a d padded.
  unfold formatAmountWithToken. rewrite Hlook, (of_string_digits raw Hraw).
  cbn [bind BN.div BN.mod_ BN.toString]. fold a d.
  pose proof (digits_value_bound raw Hraw) as [Ha _]. fold a in Ha.
  assert (Hp : 0 < 10 ^ Z.of_nat d) by (apply Z.pow_pos_nonneg; lia).
  unfold BN.pow, BN.of_nat.
  change (Z.of_nat 10) with 10.
  rewrite Z.quot_div_nonneg, Z.rem_mod_nonneg by lia.
  rewrite !decimal_nonneg
    by (try (apply Z.div_pos; lia); pose proof (Z.mod_pos_bound a _ Hp); lia).
  fold padded.
  destruct (3 <? String.length padded)%nat eqn:E; [reflexivity |].
  apply Nat.ltb_ge in E. now rewrite (slice_to_all padded 3 E).
Qed.

Lemma padded_remainder (a : Z) (d : nat) :
  0 <= a -> (0 < d)%nat ->
  let padded := padStart (decimal_string (a mod 10 ^ Z.of_nat d)) d "0" in
  String.length padded = d
  /\ all_digits padded = true
  /\ digits_value padded = a mod 10 ^ Z.of_nat d.
Proof.
  intros Ha Hd padded.
  assert (Hp : 0 < 10 ^ Z.of_nat d) by (apply Z.pow_pos_nonneg; lia).
  pose proof (Z.mod_pos_bound a _ Hp) as Hm.
  pose proof (decimal_string_length _ d Hm ltac:(lia)) as Hl.
  pose proof (decimal_string_all_digits _ (proj1 Hm)) as Hall.
  destruct (padStart_zero_digits _ d Hall) as [H1 H2].
  split; [apply padStart_length; lia |].
  split; [exact H1 |].
  unfold padded. rewrite H2. apply decimal_string_value. lia.
Qed.

End Format.

Section FormatClaims.

Import JSString.

Lemma contains_remove_spaces (c : ascii) (s : string) :
  is_space c = false -> contains c (remove_spaces s) = contains c s.
Proof.
  intros Hc. induction s as [|c' s IH]; [reflexivity |].
  cbn [remove_spaces contains].
  destruct (is_space c') eqn:Hs; cbn [contains]; rewrite IH; [| reflexivity].
  destruct (Ascii.eqb_spec c' c) as [-> | _]; [congruence | reflexivity].
Qed.

Lemma contains_not_all_digits (c : ascii) (s : string) :
  is_digit c = false -> contains c s = true -> all_digits s = false.
Proof.
  intros Hc. induction s as [|c' s IH]; [discriminate |].
  cbn [contains all_digits]. intros H.
  destruct (Ascii.eqb_spec c' c) as [-> | _].
  - now rewrite Hc.
  - rewrite (IH H). apply andb_false_r.
Qed.

Lemma contains_unsigned_part (c : ascii) (s : string) :
  is_space c = false -> c <> "-"%char -> contains c s = true ->
  contains c (BN.unsigned_part s) = true.
Proof.
  intros Hsp Hm H. rewrite <- (contains_remove_spaces c s Hsp) in H.
  unfold BN.unsigned_part.
  destruct (remove_spaces s) as [|c' r]; [discriminate |].
  assert (Hr : c' = "-"%char -> contains c r = true).
  { intros ->. cbn [contains] in H.
    destruct (Ascii.eqb_spec "-"%char c) as [E | _]; [congruence | exact H]. }
  destruct c' as [[] [] [] [] [] [] [] []]; try exact H. now apply Hr.
Qed.

Lemma of_string_leading_space (c : ascii) (raw : string) :
  is_space c = true -> raw <> "" -> BN.of_string (String c raw) = BN.of_string raw.
Proof.
  intros Hc Hne. unfold BN.of_string. cbn [remove_spaces]. rewrite Hc.
  destruct raw; [congruence | reflexivity].
Qed.

Lemma unsigned_part_minus (raw : string) :
  all_digits raw = true -> BN.unsigned_part (String "-" raw) = raw.
Proof.
  intros H. unfold BN.unsigned_part. cbn [remove_spaces].
  change (is_space "-") with false. cbv iota.
  now rewrite (remove_spaces_digits raw H).
Qed.

(** How [formatAmountWithToken] ends for a known token. *)
Lemma format_known_cases (tokenMap : gmap string Token) (raw addr : string)
    (tok : Token) :
  tokenMap !! addr = Some tok ->
  match formatAmountWithToken tokenMap raw addr with
  | Ok _ => all_digits (BN.unsigned_part raw) = true /\ BN.leaves_unset raw = false
  | Throw e =>
      e = Error "Invalid character" /\ all_digits (BN.unsigned_part raw) = false
  | NoReturn => BN.leaves_unset raw = true
  end.
Proof.
  intros Hlook. unfold formatAmountWithToken. rewrite Hlook.
  pose proof (of_string_cases raw) as H.
  destruct (BN.of_string raw) as [[v | b] | e |]; cbn [bind BN.div BN.mod_ BN.toString];
    first [exact H | destruct H].
Qed.

End FormatClaims.

(** C3 (as the code has it).  For a token with [decimals = 0] the routine
    does not return the integer string alone: it returns the decimal
    digits of the amount, then the separator and the single fractional
    digit ["0"], then a space and the token's symbol.  The digits are the
    input itself when the input has no superfluous leading zero. *)
Theorem format_decimals_zero (tokenMap : gmap string Token)
    (raw addr : string) (tok : Token) :
  tokenMap !! addr = Some tok ->
  decimals tok = 0%nat ->
  JSString.all_digits raw = true ->
  formatAmountWithToken tokenMap raw addr
  = Ok (JSString.decimal_string (JSString.digits_value raw) +:+ ".0 " +:+ symbol tok)
  /\ (JSString.is_canonical raw = true ->
      formatAmountWithToken tokenMap raw addr = Ok (raw +:+ ".0 " +:+ symbol tok)).
Proof.
  intros Hlook Hd Hraw.
  assert (H : formatAmountWithToken tokenMap raw addr
              = Ok (JSString.decimal_string (JSString.digits_value raw)
                      +:+ ".0 " +:+ symbol tok)).
  { rewrite (formatAmountWithToken_digits tokenMap raw addr tok Hlook Hraw).
    rewrite Hd. change (10 ^ Z.of_nat 0) with 1.
    rewrite Z.div_1_r, Z.mod_1_r. reflexivity. }
  split; [exact H |].
  intros Hcan. now rewrite H, (decimal_string_canonical raw Hcan).
Qed.

Lemma format_decimals_zero_witness :
  formatAmountWithToken Examples.registry "42" "C" = Ok "42.0 CNT".
Proof.
  exact (proj2 (format_decimals_zero Examples.registry "42" "C"
                  (Examples.token "C" "CNT" 0 None) eq_refl eq_refl eq_refl) eq_refl).
Defined.

(** C3, counterexample: with [decimals = 0] the amount ["5"] is rendered
    with a separator and a fractional digit, not unchanged. *)
Lemma format_decimals_zero_counterexample :
  decimals (Examples.token "C" "CNT" 0 None) = 0%nat
  /\ Examples.registry !! "C" = Some (Examples.token "C" "CNT" 0 None)
  /\ formatAmountWithToken Examples.registry "5" "C" = Ok "5.0 CNT"
  /\ formatAmountWithToken Examples.registry "5" "C" <> Ok "5".
Proof. repeat split; try reflexivity. discriminate. Qed.

(** C4.  For a known token with [decimals > 0] and an amount given by a
    string of digits, the fractional part is the remainder modulo
    [10 ^ decimals], padded with zeros to exactly [decimals] digits and cut
    to its first three characters.  Cutting never rounds up: with at least
    three decimals the digits kept denote the remainder divided by
    [10 ^ (decimals - 3)], rounded down.  The amount text (the part before
    the space that precedes the symbol) of ["1"] with 18 decimals is
    ["0.000"], and that of ["1000000000000000000"] is ["1.000"]. *)
Theorem format_fraction_truncated (tokenMap : gmap string Token)
    (addr : string) (tok : Token) :
  tokenMap !! addr = Some tok ->
  (forall raw : string,
      JSString.all_digits raw = true -> (0 < decimals tok)%nat ->
      let a := JSString.digits_value raw in
      let d := decimals tok in
      let padded :=
        JSString.padStart (JSString.decimal_string (a mod 10 ^ Z.of_nat d)) d "0" in
      String.length padded = d
      /\ JSString.all_digits padded = true
      /\ JSString.digits_value padded = a mod 10 ^ Z.of_nat d
      /\ formatAmountWithToken tokenMap raw addr
         = Ok (JSString.decimal_string (a / 10 ^ Z.of_nat d) +:+ "."
                 +:+ JSString.slice_to padded 3 +:+ " " +:+ symbol tok)
      /\ ((3 <= d)%nat ->
          JSString.digits_value (JSString.slice_to padded 3)
          = (a mod 10 ^ Z.of_nat d) / 10 ^ Z.of_nat (d - 3)))
  /\ (decimals tok = 18%nat ->
      formatAmountWithToken tokenMap "1" addr = Ok ("0.000" +:+ " " +:+ symbol tok)
      /\ formatAmountWithToken tokenMap "1000000000000000000" addr
         = Ok ("1.000" +:+ " " +:+ symbol tok)
      /\ JSString.before " " ("0.000" +:+ " " +:+ symbol tok) = "0.000"
      /\ JSString.before " " ("1.000" +:+ " " +:+ symbol tok) = "1.000").
Proof.
  intros Hlook. split.
  - intros raw Hraw Hd a d padded.
    pose proof (digits_value_bound raw Hraw) as Hnn.
    destruct (padded_remainder a d ltac:(fold a; lia) Hd) as (Hlen & Hall & Hval).
    fold padded in Hlen, Hall, Hval.
    repeat split; try assumption.
    + apply (formatAmountWithToken_digits tokenMap raw addr tok Hlook Hraw).
    + intros H3. rewrite (slice_to_value padded 3 Hall) by lia.
      now rewrite Hlen, Hval.
  - intros H18.
    rewrite (formatAmountWithToken_digits tokenMap "1" addr tok Hlook eq_refl).
    rewrite (formatAmountWithToken_digits tokenMap "1000000000000000000" addr tok
               Hlook eq_refl).
    rewrite H18. repeat split.
Qed.

Lemma format_fraction_truncated_witness :
  formatAmountWithToken Examples.registry "1" "A" = Ok ("0.000" +:+ " " +:+ "TOK").
Proof.
  exact (proj1 (proj2 (format_fraction_truncated Examples.registry "A"
                  (Examples.token "A" "TOK" 18 (Some (Number.parseFloat "2.5")))
                  eq_refl) eq_refl)).
Defined.

(** C5.  For a known token and an amount string of digits denoting [a],
    the integer part of the result (the text before the separator) is the
    decimal rendering of [a / 10 ^ decimals], the exact floor quotient of
    unbounded integers, whatever the size of [a]. *)
Theorem format_integer_part_exact (tokenMap : gmap string Token)
    (raw addr : string) (tok : Token) (a : Z) :
  tokenMap !! addr = Some tok ->
  JSString.all_digits raw = true ->
  JSString.digits_value raw = a ->
  exists out : string,
    formatAmountWithToken tokenMap raw addr = Ok out
    /\ JSString.before "." out
       = JSString.decimal_string (a / 10 ^ Z.of_nat (decimals tok))
    /\ JSString.digits_value (JSString.before "." out)
       = a / 10 ^ Z.of_nat (decimals tok).
Proof.
  intros Hlook Hraw Ha. subst a.
  eexists. split; [apply (formatAmountWithToken_digits tokenMap raw addr tok Hlook Hraw) |].
  pose proof (digits_value_bound raw Hraw) as [Hnn _].
  assert (Hq : 0 <= JSString.digits_value raw / 10 ^ Z.of_nat (decimals tok))
    by (apply Z.div_pos; [lia | apply Z.pow_pos_nonneg; lia]).
  match goal with
  | |- context [?ds +:+ "." +:+ ?r] =>
      change (ds +:+ "." +:+ r) with (ds +:+ String "."%char r)
  end.
  rewrite before_digits by (try reflexivity; now apply decimal_string_all_digits).
  split; [reflexivity | now apply decimal_string_value].
Qed.

Lemma format_integer_part_exact_witness :
  exists out : string,
    formatAmountWithToken Examples.registry "123456789012345678901234567890" "A" = Ok out
    /\ JSString.before "." out = JSString.decimal_string (123456789012345678901234567890 / 10 ^ 18)
    /\ JSString.digits_value (JSString.before "." out) = 123456789012345678901234567890 / 10 ^ 18.
Proof.
  exact (format_integer_part_exact Examples.registry "123456789012345678901234567890" "A"
           (Examples.token "A" "TOK" 18 (Some (Number.parseFloat "2.5")))
           123456789012345678901234567890 eq_refl eq_refl eq_refl).
Defined.

(** C7 (as the code has it).  The routine never throws for a string of
    decimal digits.  For an address in the token map it throws exactly
    when, white space and one leading minus sign apart, the string has a
    character that is not a decimal digit: so it throws for every string
    with a decimal point, a plus sign or any other character that is
    neither a digit, white space nor a minus sign.  White space is
    ignored and a minus sign in front of digits is accepted.  A string
    that is not empty and holds nothing but white space and one leading
    minus sign is not refused either: the routine then does not return.
    For an address that is not in the token map nothing is parsed and the
    string is returned as it is. *)
Theorem format_parse_failures (tokenMap : gmap string Token) (raw addr : string) :
  (JSString.all_digits raw = true ->
   is_ok (formatAmountWithToken tokenMap raw addr) = true)
  /\ (forall tok : Token, tokenMap !! addr = Some tok ->
      (JSString.all_digits (BN.unsigned_part raw) = false <->
       formatAmountWithToken tokenMap raw addr = Throw (Error "Invalid character"))
      /\ (BN.leaves_unset raw = true <->
          formatAmountWithToken tokenMap raw addr = NoReturn)
      /\ is_ok (formatAmountWithToken tokenMap raw addr)
         = JSString.all_digits (BN.unsigned_part raw) && negb (BN.leaves_unset raw)
      /\ (forall c : ascii,
          JSString.contains c raw = true -> JSString.is_digit c = false ->
          JSString.is_space c = false -> c <> "-"%char ->
          formatAmountWithToken tokenMap raw addr = Throw (Error "Invalid character"))
      /\ (forall c : ascii,
          In c [" "; "009"; "010"; "011"; "012"; "013"; "160"]%char -> raw <> "" ->
          formatAmountWithToken tokenMap (String c raw) addr
          = formatAmountWithToken tokenMap raw addr)
      /\ (JSString.all_digits raw = true -> raw <> "" ->
          is_ok (formatAmountWithToken tokenMap (String "-" raw) addr) = true))
  /\ (tokenMap !! addr = None -> formatAmountWithToken tokenMap raw addr = Ok raw).
Proof.
  split; [| split].
  - intros Hraw. unfold formatAmountWithToken.
    destruct (tokenMap !! addr) as [tok|]; [| reflexivity].
    now rewrite (of_string_digits raw Hraw).
  - intros tok Hlook.
    pose proof (format_known_cases tokenMap raw addr tok Hlook) as H.
    assert (Hthrow : JSString.all_digits (BN.unsigned_part raw) = false <->
              formatAmountWithToken tokenMap raw addr = Throw (Error "Invalid character")).
    { destruct (formatAmountWithToken tokenMap raw addr) as [v | e |].
      - destruct H as [H _]. split; [congruence | discriminate].
      - destruct H as [-> H]. split; [reflexivity | intros _; exact H].
      - split; [| discriminate]. intros Hd.
        unfold BN.leaves_unset in H. apply andb_true_iff in H as [_ H].
        apply String.eqb_eq in H. rewrite H in Hd. discriminate. }
    split; [exact Hthrow |].
    split; [| split; [| split; [| split]]].
    + destruct (formatAmountWithToken tokenMap raw addr) as [v | e |].
      * destruct H as [_ H]. split; [congruence | discriminate].
      * destruct H as [_ H]. split; [| discriminate]. intros Hu.
        unfold BN.leaves_unset in Hu. apply andb_true_iff in Hu as [_ Hu].
        apply String.eqb_eq in Hu. rewrite Hu in H. discriminate.
      * split; [reflexivity | intros _; exact H].
    + destruct (formatAmountWithToken tokenMap raw addr) as [v | e |]; cbn [is_ok].
      * destruct H as [-> ->]. reflexivity.
      * destruct H as [_ ->]. reflexivity.
      * rewrite H. cbn [negb]. now rewrite andb_false_r.
    + intros c Hc Hd Hs Hm. apply Hthrow.
      apply (contains_not_all_digits c); [exact Hd |].
      now apply contains_unsigned_part.
    + intros c Hc Hne.
      assert (Hsp : JSString.is_space c = true).
      { cbn [In] in Hc. repeat destruct Hc as [<- | Hc]; try reflexivity. destruct Hc. }
      unfold formatAmountWithToken. rewrite Hlook.
      now rewrite (of_string_leading_space c raw Hsp Hne).
    + intros Hraw Hne.
      pose proof (format_known_cases tokenMap (String "-" raw) addr tok Hlook) as Hm.
      rewrite (unsigned_part_minus raw Hraw) in Hm.
      destruct (formatAmountWithToken tokenMap (String "-" raw) addr) as [v | e |].
      * reflexivity.
      * destruct Hm as [_ Hm]. congruence.
      * unfold BN.leaves_unset in Hm. rewrite (unsigned_part_minus raw Hraw) in Hm.
        apply andb_true_iff in Hm as [_ Hm]. apply String.eqb_eq in Hm. congruence.
  - intros Hlook. unfold formatAmountWithToken. now rewrite Hlook.
Qed.

Lemma format_parse_failures_witness :
  formatAmountWithToken Examples.registry "1.5" "A" = Throw (Error "Invalid character").
Proof.
  refine (proj1 (proj2 (proj2 (proj2
            (proj1 (proj2 (format_parse_failures Examples.registry "1.5" "A"))
               (Examples.token "A" "TOK" 18 (Some (Number.parseFloat "2.5"))) eq_refl))))
            "."%char eq_refl eq_refl eq_refl _).
  discriminate.
Defined.

(** C7, counterexample: strings with a sign or with white space are
    accepted, not refused, and a lone minus sign or blank makes the
    routine not return instead of failing. *)
Lemma format_accepts_minus_sign :
  JSString.contains "-" "-5" = true
  /\ Examples.registry !! "C" = Some (Examples.token "C" "CNT" 0 None)
  /\ formatAmountWithToken Examples.registry "-5" "C" = Ok "-5.0 CNT"
  /\ formatAmountWithToken Examples.registry " 1 5" "C" = Ok "15.0 CNT"
  /\ formatAmountWithToken Examples.registry "-" "C" = NoReturn
  /\ formatAmountWithToken Examples.registry " " "C" = NoReturn.
Proof. repeat split. Qed.

(** C9.  For an address that is not in the token map the routine returns
    the amount string as it is, whatever the string: nothing is parsed,
    divided, cut or appended. *)
Theorem format_unknown_token (tokenMap : gmap string Token) (amount addr : string) :
  tokenMap !! addr = None ->
  formatAmountWithToken tokenMap amount addr = Ok amount.
Proof. intros H. unfold formatAmountWithToken. now rewrite H. Qed.

Lemma format_unknown_token_witness :
  formatAmountWithToken Examples.registry "12x.5 " "Z" = Ok "12x.5 ".
Proof. exact (format_unknown_token Examples.registry "12x.5 " "Z" eq_refl). Defined.

(** ** Numbers *)

Section NumberFacts.

Import JSString.

Lemma mul_zero_finite (h : spec_float) (s : bool) :
  Number.is_finite h = true -> Number.is_zero (Number.mul h (S754_zero s)) = true.
Proof. destruct h; simpl; intros H; try discriminate; reflexivity. Qed.

Lemma max_zero (a b : spec_float) :
  Number.is_zero a = true -> Number.is_zero b = true ->
  Number.is_zero (Number.max a b) = true.
Proof.
  destruct a as [[]| | |], b as [[]| | |]; simpl; intros Ha Hb;
    try discriminate; reflexivity.
Qed.

Lemma toFixed3_zero (x : spec_float) :
  Number.is_zero x = true -> Number.toFixed3 x = "0.000".
Proof. destruct x; simpl; intros H; try discriminate; reflexivity. Qed.

Lemma magnitude_pos (m : positive) (e num den : Z) :
  Number.magnitude m e = (num, den) -> 0 < num /\ 0 < den.
Proof.
  unfold Number.magnitude. destruct (0 <=? e) eqn:He; intros [= <- <-].
  - apply Z.leb_le in He. split; [| lia].
    apply Z.mul_pos_pos; [lia | apply Z.pow_pos_nonneg; lia].
  - apply Z.leb_gt in He. split; [lia | apply Z.pow_pos_nonneg; lia].
Qed.

(** [nearest_thousandth num den] is the integer [n] with
    [n - 1/2 <= 1000 * num / den < n + 1/2]. *)
Lemma nearest_thousandth_spec (num den : Z) :
  0 <= num -> 0 < den ->
  let n := Number.nearest_thousandth num den in
  0 <= n /\ (2 * n - 1) * den <= 2000 * num < (2 * n + 1) * den.
Proof.
  intros Hnum Hden n. unfold Number.nearest_thousandth in n.
  pose proof (Z.div_mod (2 * 1000 * num + den) (2 * den) ltac:(lia)) as Hdm.
  pose proof (Z.mod_pos_bound (2 * 1000 * num + den) (2 * den) ltac:(lia)) as Hm.
  fold n in Hdm.
  assert (0 <= n) by (apply Z.div_pos; lia).
  split; [assumption | nia].
Qed.

Lemma contains_app_sep (ds rest : string) (sep : ascii) :
  contains sep (ds +:+ String sep rest) = true.
Proof.
  induction ds as [|c ds IH]; simpl.
  - now rewrite Ascii.eqb_refl.
  - rewrite IH. apply orb_true_r.
Qed.

Lemma after_digits (ds rest : string) (sep : ascii) :
  all_digits ds = true -> is_digit sep = false ->
  after sep (ds +:+ String sep rest) = rest.
Proof.
  intros Hds Hsep. induction ds as [|c ds IH]; simpl.
  - now rewrite Ascii.eqb_refl.
  - simpl in Hds. apply andb_true_iff in Hds as [Hc Hds].
    rewrite (is_digit_neq c sep Hc Hsep). now apply IH.
Qed.

Lemma three_fraction_digits_shape (s : bool) (ip fp : string) :
  all_digits ip = true -> all_digits fp = true -> String.length fp = 3%nat ->
  three_fraction_digits ((if s then "-" else "") +:+ ip +:+ "." +:+ fp) = true.
Proof.
  intros Hip Hfp Hlen. unfold three_fraction_digits.
  change (ip +:+ "." +:+ fp) with (ip +:+ String "."%char fp).
  assert (H : contains "." (ip +:+ String "."%char fp) = true
              /\ after "." (ip +:+ String "."%char fp) = fp).
  { split; [apply contains_app_sep | now apply after_digits]. }
  destruct H as [Hc Ha].
  destruct s; cbn [String.append contains after Ascii.eqb Bool.eqb orb];
    rewrite ?Hc, Ha, Hlen, Hfp; reflexivity.
Qed.

(** [toFixed(3)] of a finite number below [10 ^ 21] in magnitude. *)
Lemma toFixed3_finite (s : bool) (m : positive) (e num den : Z) :
  Number.magnitude m e = (num, den) -> num < 10 ^ 21 * den ->
  exists (n : Z) (ip fp : string),
    Number.toFixed3 (S754_finite s m e)
    = (if s then "-" else "") +:+ ip +:+ "." +:+ fp
    /\ all_digits ip = true /\ (1 <= String.length ip)%nat
    /\ all_digits fp = true /\ String.length fp = 3%nat
    /\ digits_value (ip +:+ fp) = n
    /\ (2 * n - 1) * den <= 2000 * num < (2 * n + 1) * den.
Proof.
  intros Hmag Hlt.
  destruct (magnitude_pos m e num den Hmag) as [Hnum Hden].
  destruct (nearest_thousandth_spec num den ltac:(lia) Hden) as [Hn Hnear].
  set (n := Number.nearest_thousandth num den) in *.
  set (padded := padStart (decimal_string n) 4 "0").
  pose proof (decimal_string_all_digits n Hn) as Hall.
  destruct (padStart_zero_digits (decimal_string n) 4 Hall) as [Hpall Hpval].
  fold padded in Hpall, Hpval.
  assert (Hplen : (4 <= String.length padded)%nat).
  { unfold padded, padStart. rewrite length_app, length_repeat_char. lia. }
  set (k := String.length padded) in *.
  exists n, (slice_to padded (k - 3)), (slice_from padded (k - 3)).
  destruct (slice_all_digits padded (k - 3) Hpall) as [Hip Hfp].
  repeat split; try assumption.
  - unfold Number.toFixed3. rewrite Hmag.
    destruct (10 ^ 21 * den <=? num) eqn:E; [apply Z.leb_le in E; lia |].
    reflexivity.
  - rewrite slice_to_length; fold k; lia.
  - rewrite slice_from_length. fold k. lia.
  - rewrite <- slice_split, Hpval. now apply decimal_string_value.
  - apply Hnear.
  - apply Hnear.
Qed.

End NumberFacts.

(** ** The volume of a trade *)

Section VolumeFacts.

Import JSString.

Variable tokenMap : gmap string Token.

Lemma below_1e21_three_digits (x : spec_float) :
  Number.below_1e21 x = true -> three_fraction_digits (Number.toFixed3 x) = true.
Proof.
  destruct x as [s | s | | s m e]; try discriminate; [reflexivity |].
  cbn [Number.below_1e21]. destruct (Number.magnitude m e) as [num den] eqn:Hmag.
  intros Hlt. apply Z.ltb_lt in Hlt.
  destruct (toFixed3_finite s m e num den Hmag Hlt)
    as (n & ip & fp & Hs & Hip & Hlen & Hfp & Hflen & _).
  rewrite Hs. now apply three_fraction_digits_shape.
Qed.

Lemma calculateVolume_digits (trade : MultiSwap) :
  all_digits (amount_in trade) = true -> all_digits (amount_out trade) = true ->
  calculateVolume tokenMap trade
  = Ok (Number.toFixed3
          (volumeNumber (tokenMap !! token_in trade) (tokenMap !! token_out trade)
             (digits_value (amount_in trade)) (digits_value (amount_out trade)))).
Proof.
  intros Hin Hout. unfold calculateVolume.
  now rewrite (of_string_digits _ Hin), (of_string_digits _ Hout).
Qed.

(** How [calculateVolume] ends, by the two amount strings alone. *)
Lemma calculateVolume_cases (trade : MultiSwap) :
  match calculateVolume tokenMap trade with
  | Ok _ =>
      all_digits (BN.unsigned_part (amount_in trade)) = true
      /\ all_digits (BN.unsigned_part (amount_out trade)) = true
      /\ BN.leaves_unset (amount_in trade) = false
      /\ BN.leaves_unset (amount_out trade) = false
  | Throw e =>
      e = Error "Invalid character"
      /\ all_digits (BN.unsigned_part (amount_in trade))
         && all_digits (BN.unsigned_part (amount_out trade)) = false
  | NoReturn =>
      all_digits (BN.unsigned_part (amount_in trade))
      && all_digits (BN.unsigned_part (amount_out trade)) = true
      /\ BN.leaves_unset (amount_in trade) || BN.leaves_unset (amount_out trade) = true
  end.
Proof.
  unfold calculateVolume.
  pose proof (of_string_cases (amount_in trade)) as Hi.
  pose proof (of_string_cases (amount_out trade)) as Ho.
  pose proof (of_string_ok_iff (amount_in trade)) as Hoki.
  destruct (BN.of_string (amount_in trade)) as [[vi | bi] | ei |];
    destruct (BN.of_string (amount_out trade)) as [[vo | bo] | eo |];
    cbn [bind BN.toString is_ok] in *;
    try (destruct Hi; fail); try (destruct Ho; fail).
  - destruct Hi as [-> ->], Ho as [-> ->]. repeat split.
  - destruct Hi as [-> ->]. rewrite Ho. split; [| reflexivity].
    unfold BN.leaves_unset in Ho. apply andb_true_iff in Ho as [_ Ho].
    apply String.eqb_eq in Ho. now rewrite Ho.
  - destruct Ho as [-> ->]. split; [reflexivity | apply andb_false_r].
  - destruct Ho as [-> ->]. rewrite Hi, <- Hoki. now split.
  - rewrite Hi, <- Hoki. split; [| reflexivity].
    unfold BN.leaves_unset in Ho. apply andb_true_iff in Ho as [_ Ho].
    apply String.eqb_eq in Ho. now rewrite Ho.
  - destruct Ho as [-> ->]. split; [reflexivity | apply andb_false_r].
  - destruct Hi as [-> ->]. now split.
  - destruct Hi as [-> ->]. now split.
  - destruct Hi as [-> ->]. now split.
Qed.



(** *** The total *)

Lemma reduce_ok (trades : list MultiSwap) (acc : spec_float) :
  (forall t, In t trades ->
     all_digits (amount_in t) = true /\ all_digits (amount_out t) = true) ->
  reduce
    (fun acc trade =>
       let* v := calculateVolume tokenMap trade in
       Ok (Number.add acc (Number.parseFloat v)))
    trades acc
  = Ok (fold_left
          (fun acc t =>
             Number.add acc
               (Number.parseFloat
                  (Number.toFixed3
                     (volumeNumber (tokenMap !! token_in t) (tokenMap !! token_out t)
                        (digits_value (amount_in t)) (digits_value (amount_out t))))))
          trades acc).
Proof.
  revert acc. induction trades as [|t trades IH]; intros acc H; [reflexivity |].
  cbn [reduce fold_left].
  destruct (H t (or_introl eq_refl)) as [Hin Hout].
  rewrite (calculateVolume_digits t Hin Hout). cbn [bind].
  apply IH. intros t' Ht'. apply H. now right.
Qed.

Lemma reduce_is_ok (trades : list MultiSwap) (acc : spec_float) :
  is_ok
    (reduce
       (fun acc trade =>
          let* v := calculateVolume tokenMap trade in
          Ok (Number.add acc (Number.parseFloat v)))
       trades acc)
  = forallb (fun t => is_ok (calculateVolume tokenMap t)) trades.
Proof.
  revert acc. induction trades as [|t trades IH]; intros acc; [reflexivity |].
  cbn [reduce forallb].
  destruct (calculateVolume tokenMap t); cbn [bind is_ok];
    [apply IH | reflexivity | reflexivity].
Qed.

(** The first trade whose volume does not compute ends the pass the way
    its own computation ended. *)
Lemma reduce_first_failure (before after : list MultiSwap) (t : MultiSwap)
    (acc : spec_float) :
  (forall t', In t' before -> is_ok (calculateVolume tokenMap t') = true) ->
  is_ok (calculateVolume tokenMap t) = false ->
  reduce
    (fun acc trade =>
       let* v := calculateVolume tokenMap trade in
       Ok (Number.add acc (Number.parseFloat v)))
    (before ++ t :: after) acc
  = match calculateVolume tokenMap t with
    | Throw e => Throw e
    | _ => NoReturn
    end.
Proof.
  revert acc. induction before as [|t' before IH]; intros acc Hb Hbad.
  - cbn [app reduce].
    destruct (calculateVolume tokenMap t); [discriminate | reflexivity | reflexivity].
  - cbn [app reduce].
    pose proof (Hb t' (or_introl eq_refl)) as Hok.
    destruct (calculateVolume tokenMap t') as [v | e |]; try discriminate Hok.
    cbn [bind]. apply IH; [| exact Hbad].
    intros t'' Hin. apply Hb. now right.
Qed.

End VolumeFacts.

(** C1 (as the code has it).  For a trade whose amounts are strings of
    digits, the result is [toFixed(3)] of the larger of the two leg
    values, each the floating-point human amount times the price, a
    missing price counting as [0.0].  A leg without price has value zero
    provided its human amount is finite.  When the volume is finite and
    below [10 ^ 21] the result has exactly three fractional digits and
    shows [n / 1000] for the integer [n] nearest to a thousand times the
    magnitude of the volume, the larger one of two equally near: rounding,
    not truncation.  A volume that is zero is rendered ["0.000"]. *)
Theorem volume_computation (tokenMap : gmap string Token) (trade : MultiSwap) :
  JSString.all_digits (amount_in trade) = true ->
  JSString.all_digits (amount_out trade) = true ->
  let tokenIn := tokenMap !! token_in trade in
  let tokenOut := tokenMap !! token_out trade in
  let amountIn := JSString.digits_value (amount_in trade) in
  let amountOut := JSString.digits_value (amount_out trade) in
  let valueIn := Number.mul (humanAmountFloat tokenIn amountIn)
                            (Number.or_zero (tokenIn ≫= price)) in
  let valueOut := Number.mul (humanAmountFloat tokenOut amountOut)
                             (Number.or_zero (tokenOut ≫= price)) in
  let volume := Number.max valueIn valueOut in
  calculateVolume tokenMap trade = Ok (Number.toFixed3 volume)
  /\ (tokenIn ≫= price = None ->
      Number.is_finite (humanAmountFloat tokenIn amountIn) = true ->
      Number.is_zero valueIn = true)
  /\ (tokenOut ≫= price = None ->
      Number.is_finite (humanAmountFloat tokenOut amountOut) = true ->
      Number.is_zero valueOut = true)
  /\ (forall (s : bool) (m : positive) (e num den : Z),
      volume = S754_finite s m e ->
      Number.magnitude m e = (num, den) ->
      num < 10 ^ 21 * den ->
      JSString.three_fraction_digits (Number.toFixed3 volume) = true
      /\ exists (n : Z) (ip fp : string),
          Number.toFixed3 volume = (if s then "-" else "") +:+ ip +:+ "." +:+ fp
          /\ JSString.all_digits ip = true /\ (1 <= String.length ip)%nat
          /\ JSString.all_digits fp = true /\ String.length fp = 3%nat
          /\ JSString.digits_value (ip +:+ fp) = n
          /\ (2 * n - 1) * den <= 2000 * num < (2 * n + 1) * den)
  /\ (Number.is_zero volume = true -> Number.toFixed3 volume = "0.000").
Proof.
  intros Hin Hout tokenIn tokenOut amountIn amountOut valueIn valueOut volume.
  split; [apply (calculateVolume_digits tokenMap trade Hin Hout) |].
  split; [| split; [| split]].
  - intros Hp Hfin. unfold valueIn. rewrite Hp. now apply mul_zero_finite.
  - intros Hp Hfin. unfold valueOut. rewrite Hp. now apply mul_zero_finite.
  - intros s m e num den Hv Hmag Hlt. rewrite Hv.
    destruct (toFixed3_finite s m e num den Hmag Hlt)
      as (n & ip & fp & Hs & Hip & Hlen & Hfp & Hflen & Hval & Hnear).
    split.
    + rewrite Hs. now apply three_fraction_digits_shape.
    + exists n, ip, fp. repeat split; try assumption; apply Hnear.
  - apply toFixed3_zero.
Qed.

Lemma volume_computation_witness :
  calculateVolume Examples.registry Examples.swap_ten = Ok "25.000".
Proof.
  exact (proj1 (volume_computation Examples.registry Examples.swap_ten eq_refl eq_refl)).
Defined.

(** C1, counterexample: a volume of [2.5 * 10 ^ 21] is rendered in
    exponential notation, without three fractional digits. *)
Lemma volume_exponential_notation :
  calculateVolume Examples.registry
    (Examples.trade "A" "U" "1000000000000000000000000000000000000000" "24000000")
  = Ok "2.5e+21"
  /\ JSString.three_fraction_digits "2.5e+21" = false.
Proof. split; vm_compute; reflexivity. Qed.

(** The last digit is rounded, not cut: 1.2346 is rendered ["1.235"]. *)
Example volume_rounds_half_up :
  calculateVolume Examples.registry (Examples.trade "D" "Z" "12346" "1") = Ok "1.235".
Proof. vm_compute. reflexivity. Qed.

(** C2 (as the code has it).  For trades whose amounts are strings of
    digits, the total is the floating-point sum, from zero and in order,
    of what [parseFloat] reads back from each trade's own [toFixed(3)]
    volume, and the heading shows [toFixed(3)] of that sum: the rounding
    of each trade is kept, the unrounded values are not summed.  A
    volume that is zero or finite and below [10 ^ 21] is a three-decimal
    number; when the sum is zero or finite and below [10 ^ 21] the total
    has exactly three fractional digits and shows [n / 1000] for the
    integer [n] nearest to a thousand times the magnitude of the sum, the
    larger one of two equally near.  Over no trades the heading shows
    ["0.000"].  Two trades of volume 0.0004 total ["0.000"], while the sum
    of their unrounded volumes would show ["0.001"]. *)
Theorem total_volume_sum (tokenMap : gmap string Token) (trades : list MultiSwap) :
  (forall t : MultiSwap, In t trades ->
     JSString.all_digits (amount_in t) = true
     /\ JSString.all_digits (amount_out t) = true) ->
  let number := fun t : MultiSwap =>
    volumeNumber (tokenMap !! token_in t) (tokenMap !! token_out t)
      (JSString.digits_value (amount_in t)) (JSString.digits_value (amount_out t)) in
  let volume := fun t : MultiSwap => Number.toFixed3 (number t) in
  let total :=
    fold_left (fun acc t => Number.add acc (Number.parseFloat (volume t)))
      trades Number.zero in
  Forall (fun t => calculateVolume tokenMap t = Ok (volume t)) trades
  /\ calculateTotalVolume tokenMap trades = Ok total
  /\ totalVolumeText tokenMap trades = Ok (Number.toFixed3 total)
  /\ (forall t : MultiSwap, In t trades ->
      Number.below_1e21 (number t) = true ->
      JSString.three_fraction_digits (volume t) = true)
  /\ (Number.below_1e21 total = true ->
      JSString.three_fraction_digits (Number.toFixed3 total) = true)
  /\ (forall (s : bool) (m : positive) (e num den : Z),
      total = S754_finite s m e ->
      Number.magnitude m e = (num, den) ->
      num < 10 ^ 21 * den ->
      exists (n : Z) (ip fp : string),
        Number.toFixed3 total = (if s then "-" else "") +:+ ip +:+ "." +:+ fp
        /\ JSString.all_digits ip = true /\ (1 <= String.length ip)%nat
        /\ JSString.all_digits fp = true /\ String.length fp = 3%nat
        /\ JSString.digits_value (ip +:+ fp) = n
        /\ (2 * n - 1) * den <= 2000 * num < (2 * n + 1) * den)
  /\ (Number.is_zero total = true -> Number.toFixed3 total = "0.000")
  /\ totalVolumeText tokenMap [] = Ok "0.000"
  /\ totalVolumeText Examples.registry [Examples.swap_small; Examples.swap_small]
     = Ok "0.000"
  /\ Number.toFixed3
       (fold_left
          (fun acc t =>
             Number.add acc
               (volumeNumber (Examples.registry !! token_in t)
                  (Examples.registry !! token_out t)
                  (JSString.digits_value (amount_in t))
                  (JSString.digits_value (amount_out t))))
          [Examples.swap_small; Examples.swap_small] Number.zero)
     = "0.001".
Proof.
  intros H number volume total.
  assert (Ht : calculateTotalVolume tokenMap trades = Ok total)
    by apply (reduce_ok tokenMap trades Number.zero H).
  split; [| split; [exact Ht |]].
  { apply List.Forall_forall. intros t Hin. destruct (H t Hin) as [Hi Ho].
    apply (calculateVolume_digits tokenMap t Hi Ho). }
  split; [unfold totalVolumeText; now rewrite Ht |].
  split; [intros t _ Hb; now apply below_1e21_three_digits |].
  split; [apply below_1e21_three_digits |].
  split.
  { intros s m e num den Hv Hmag Hlt. rewrite Hv.
    destruct (toFixed3_finite s m e num den Hmag Hlt)
      as (n & ip & fp & Hs & Hip & Hlen & Hfp & Hflen & Hval & Hnear).
    exists n, ip, fp. repeat split; try assumption; apply Hnear. }
  split; [apply toFixed3_zero |].
  split; [reflexivity |].
  split; vm_compute; reflexivity.
Qed.

Lemma total_volume_sum_witness :
  totalVolumeText Examples.registry [Examples.swap_ten; Examples.swap_small]
  = Ok "25.000".
Proof.
  refine (proj1 (proj2 (proj2
            (total_volume_sum Examples.registry [Examples.swap_ten; Examples.swap_small] _)))).
  intros t [<- | [<- | []]]; split; reflexivity.
Defined.

(** C2, counterexample: two trades of volume [6 * 10 ^ 20], each rendered
    with three decimals, total [1.2 * 10 ^ 21], which is rendered in
    exponential notation and not as a three-decimal number. *)
Lemma total_volume_exponential_notation :
  calculateVolume Examples.registry Examples.swap_large
  = Ok "600000000000000000000.000"
  /\ totalVolumeText Examples.registry [Examples.swap_large; Examples.swap_large]
     = Ok "1.2e+21"
  /\ JSString.three_fraction_digits "1.2e+21" = false.
Proof. repeat split; vm_compute; reflexivity. Qed.

(** C6 (as the code has it).  For a trade whose two tokens are both absent
    from the token map and whose amounts are strings of digits, no
    exception is thrown, the decimals and prices fall back to zero, and
    the result is ["0.000"] provided both human amounts are finite. *)
Theorem volume_unknown_tokens (tokenMap : gmap string Token) (trade : MultiSwap) :
  tokenMap !! token_in trade = None ->
  tokenMap !! token_out trade = None ->
  JSString.all_digits (amount_in trade) = true ->
  JSString.all_digits (amount_out trade) = true ->
  Number.is_finite
    (humanAmountFloat None (JSString.digits_value (amount_in trade))) = true ->
  Number.is_finite
    (humanAmountFloat None (JSString.digits_value (amount_out trade))) = true ->
  calculateVolume tokenMap trade = Ok "0.000".
Proof.
  intros Hti Hto Hin Hout Hfi Hfo.
  rewrite (calculateVolume_digits tokenMap trade Hin Hout), Hti, Hto.
  f_equal. apply toFixed3_zero. unfold volumeNumber, legValue.
  apply max_zero; now apply mul_zero_finite.
Qed.

Lemma volume_unknown_tokens_witness :
  calculateVolume Examples.registry
    (Examples.trade "X" "Y" "115792089237316195423570985008687907853269984665640564039457584007913129639935" "7")
  = Ok "0.000".
Proof.
  apply volume_unknown_tokens; vm_compute; reflexivity.
Defined.

(** C6, counterexample: with both tokens unknown, an amount of
    [10 ^ 309] converts to [Infinity], whose product with the price [0]
    is [NaN]. *)
Lemma volume_unknown_tokens_nan :
  (Examples.registry !! "X" = None)
  /\ Examples.registry !! "Y" = None
  /\ JSString.all_digits Examples.huge_amount = true
  /\ calculateVolume Examples.registry (Examples.trade "X" "Y" Examples.huge_amount "1")
     = Ok "NaN".
Proof. repeat split; vm_compute; reflexivity. Qed.

(** C8 (as the code has it).  When the volume of one trade of the
    collection does not compute, the trades before it computing, nothing
    catches it and the whole pass ends the way that computation ended: if
    it threw, [calculateTotalVolume] throws the same error, and if it did
    not return, neither does the pass.  No total is produced for the
    remaining trades, and the failing record is neither skipped nor
    reported.  The pass completes exactly when the volume of every trade
    computes. *)
Theorem total_volume_aborts (tokenMap : gmap string Token)
    (before after : list MultiSwap) (t : MultiSwap) :
  (forall t' : MultiSwap, In t' before ->
     is_ok (calculateVolume tokenMap t') = true) ->
  is_ok (calculateVolume tokenMap t) = false ->
  is_ok (calculateTotalVolume tokenMap (before ++ t :: after)) = false
  /\ (forall e : exn, calculateVolume tokenMap t = Throw e ->
      calculateTotalVolume tokenMap (before ++ t :: after) = Throw e
      /\ totalVolumeText tokenMap (before ++ t :: after) = Throw e)
  /\ (calculateVolume tokenMap t = NoReturn ->
      calculateTotalVolume tokenMap (before ++ t :: after) = NoReturn
      /\ totalVolumeText tokenMap (before ++ t :: after) = NoReturn)
  /\ forall trades : list MultiSwap,
      is_ok (calculateTotalVolume tokenMap trades)
      = forallb (fun t' => is_ok (calculateVolume tokenMap t')) trades.
Proof.
  intros Hbefore Hbad.
  pose proof (reduce_first_failure tokenMap before after t Number.zero Hbefore Hbad) as H.
  fold (calculateTotalVolume tokenMap (before ++ t :: after)) in H.
  split; [| split; [| split]].
  - rewrite H. now destruct (calculateVolume tokenMap t).
  - intros e He. rewrite He in H. unfold totalVolumeText. now rewrite H.
  - intros He. rewrite He in H. unfold totalVolumeText. now rewrite H.
  - intros trades. exact (reduce_is_ok tokenMap trades Number.zero).
Qed.

Lemma total_volume_aborts_witness :
  calculateTotalVolume Examples.registry
    ([Examples.swap_ten] ++ Examples.swap_malformed :: [Examples.swap_small])
  = Throw (Error "Invalid character").
Proof.
  refine (proj1 (proj1 (proj2 (total_volume_aborts Examples.registry
            [Examples.swap_ten] [Examples.swap_small] Examples.swap_malformed _ _))
            (Error "Invalid character") _)).
  - intros t' [<- | []]. reflexivity.
  - reflexivity.
  - reflexivity.
Defined.

(** C8, counterexample: one malformed record makes the total over a
    collection that also holds a well-formed trade throw. *)
Lemma total_volume_malformed_record :
  calculateVolume Examples.registry Examples.swap_ten = Ok "25.000"
  /\ calculateVolume Examples.registry Examples.swap_malformed
     = Throw (Error "Invalid character")
  /\ totalVolumeText Examples.registry [Examples.swap_malformed; Examples.swap_ten]
     = Throw (Error "Invalid character")
  /\ totalVolumeText Examples.registry [Examples.swap_ten; Examples.swap_malformed]
     = Throw (Error "Invalid character").
Proof. repeat split; vm_compute; reflexivity. Qed.

(** C10.  The result depends only on the two amounts, the two token
    addresses and what the token map holds at these two addresses: trades
    that agree on the former, under token maps that agree on the latter,
    have the same volume, whatever their origin, path, block number and
    extrinsic index and whatever else the token maps hold. *)
Theorem volume_depends_only_on_legs (tokenMap1 tokenMap2 : gmap string Token)
    (trade1 trade2 : MultiSwap) :
  amount_in trade1 = amount_in trade2 ->
  amount_out trade1 = amount_out trade2 ->
  token_in trade1 = token_in trade2 ->
  token_out trade1 = token_out trade2 ->
  tokenMap1 !! token_in trade1 = tokenMap2 !! token_in trade1 ->
  tokenMap1 !! token_out trade1 = tokenMap2 !! token_out trade1 ->
  calculateVolume tokenMap1 trade1 = calculateVolume tokenMap2 trade2.
Proof.
  intros Hai Hao Hti Hto Hmi Hmo.
  unfold calculateVolume.
  rewrite <- Hai, <- Hao, <- Hti, <- Hto, Hmi, Hmo.
  reflexivity.
Qed.

Lemma volume_depends_only_on_legs_witness :
  calculateVolume Examples.registry Examples.swap_ten
  = calculateVolume
      (<["Q" := Examples.token "Q" "QQQ" 3 None]> Examples.registry)
      {| origin := "5Other"; token_in := "A"; token_out := "U";
         path := ["A"; "Q"; "U"]; amount_in := "10000000000000000000";
         amount_out := "24000000"; block_num := 7; extrinsic_index := 0 |}.
Proof.
  apply volume_depends_only_on_legs; reflexivity.
Defined.

(** * Further properties of the component *)

(** ** The token map built by [fetchTokens] *)

Lemma tokenMap_of_snoc (data : list Token) (tok : Token) :
  tokenMap_of (data ++ [tok]) = <[address tok := tok]> (tokenMap_of data).
Proof. unfold tokenMap_of. now rewrite fold_left_app. Qed.

(** A record of the list is found under its address unless a later record
    has the same address: the later record wins. *)
Theorem tokenMap_of_last_wins (before after : list Token) (tok : Token) :
  (forall t : Token, In t after -> address t <> address tok) ->
  tokenMap_of (before ++ tok :: after) !! address tok = Some tok.
Proof.
  induction after as [|t after IH] using rev_ind; intros H.
  - rewrite tokenMap_of_snoc. apply lookup_insert_eq.
  - change (before ++ tok :: after ++ [t]) with (before ++ (tok :: after) ++ [t]).
    rewrite app_assoc, tokenMap_of_snoc.
    rewrite lookup_insert_ne.
    + apply IH. intros t' Ht'. apply H. apply in_or_app. now left.
    + apply H. apply in_or_app. right. now left.
Qed.

Lemma tokenMap_of_last_wins_witness :
  tokenMap_of
    ([Examples.token "A" "OLD" 6 None] ++ Examples.token "A" "NEW" 18 None
       :: [Examples.token "B" "BBB" 0 None]) !! "A"
  = Some (Examples.token "A" "NEW" 18 None).
Proof.
  apply (tokenMap_of_last_wins [Examples.token "A" "OLD" 6 None]
           [Examples.token "B" "BBB" 0 None] (Examples.token "A" "NEW" 18 None)).
  intros t [<- | []]. discriminate.
Defined.

(** What the map holds at an address is a record of the list that carries
    this address, and the map holds nothing there exactly when no record
    of the list carries it. *)
Theorem tokenMap_of_lookup (data : list Token) (a : string) :
  (forall tok : Token,
      tokenMap_of data !! a = Some tok -> In tok data /\ address tok = a)
  /\ (tokenMap_of data !! a = None <-> forall tok : Token, In tok data -> address tok <> a).
Proof.
  induction data as [|t data [IH1 IH2]] using rev_ind.
  - split; [intros tok H; discriminate |].
    split; [intros _ tok [] | reflexivity].
  - rewrite tokenMap_of_snoc.
    destruct (decide (address t = a)) as [Heq | Hne].
    + rewrite Heq, lookup_insert_eq. split.
      * intros tok [= <-]. split; [apply in_or_app; right; now left | exact Heq].
      * split; [discriminate |].
        intros H. exfalso. apply (H t); [apply in_or_app; right; now left | exact Heq].
    + rewrite lookup_insert_ne by exact Hne. split.
      * intros tok H. destruct (IH1 tok H) as [Hin Ha].
        split; [apply in_or_app; now left | exact Ha].
      * rewrite IH2. split.
        -- intros H tok Hin. apply in_app_or in Hin as [Hin | [<- | []]];
             [now apply H | exact Hne].
        -- intros H tok Hin. apply H. apply in_or_app. now left.
Qed.

(** ** [getSymbol] *)

(** The text shown for an address is the address itself or the non-empty
    symbol of the token stored there, and it is empty only for the empty
    address. *)
Theorem getSymbol_shown (tokenMap : gmap string Token) (a : string) :
  (getSymbol tokenMap a = a
   \/ exists tok : Token,
       tokenMap !! a = Some tok /\ getSymbol tokenMap a = symbol tok
       /\ symbol tok <> "")
  /\ (getSymbol tokenMap a = "" -> a = "").
Proof.
  unfold getSymbol. destruct (tokenMap !! a) as [tok|] eqn:E.
  - destruct (symbol tok) as [|c s] eqn:Es.
    + split; [now left | auto].
    + split; [| discriminate].
      right. exists tok. rewrite Es. repeat split. discriminate.
  - split; [now left | auto].
Qed.

(** ** The order of the trades *)

Section Sorting.

Lemma insertTrade_perm (x : MultiSwap) (l : list MultiSwap) :
  Permutation (insertTrade x l) (x :: l).
Proof.
  induction l as [|y l IH]; cbn [insertTrade]; [reflexivity |].
  destruct (block_num y <=? block_num x); [reflexivity |].
  rewrite IH. apply perm_swap.
Qed.

Lemma sortTrades_perm (l : list MultiSwap) : Permutation (sortTrades l) l.
Proof.
  induction l as [|x l IH]; [reflexivity |].
  cbn [sortTrades fold_right]. fold (sortTrades l).
  rewrite insertTrade_perm. now constructor.
Qed.

Lemma insertTrade_sorted (x : MultiSwap) (l : list MultiSwap) :
  StronglySorted newer_first l -> StronglySorted newer_first (insertTrade x l).
Proof.
  induction l as [|y l IH]; intros Hs; cbn [insertTrade].
  - repeat constructor.
  - inversion Hs as [|? ? Hl Hy]; subst.
    destruct (block_num y <=? block_num x) eqn:E.
    + apply Z.leb_le in E. constructor; [exact Hs |].
      constructor; [exact E |].
      eapply List.Forall_impl; [| exact Hy].
      intros z Hz. unfold newer_first in *. lia.
    + apply Z.leb_gt in E. constructor; [now apply IH |].
      rewrite (insertTrade_perm x l). constructor; [| exact Hy].
      unfold newer_first. lia.
Qed.

Lemma insertTrade_filter (n : Z) (x : MultiSwap) (l : list MultiSwap) :
  StronglySorted newer_first l ->
  List.filter (fun t => block_num t =? n) (insertTrade x l)
  = List.filter (fun t => block_num t =? n) (x :: l).
Proof.
  induction l as [|y l IH]; intros Hs; cbn [insertTrade]; [reflexivity |].
  destruct (block_num y <=? block_num x) eqn:E; [reflexivity |].
  apply Z.leb_gt in E.
  inversion Hs as [|? ? Hl Hy]; subst.
  cbn [List.filter] in *. rewrite (IH Hl).
  destruct (block_num y =? n) eqn:Ey; [| reflexivity].
  destruct (block_num x =? n) eqn:Ex; [| reflexivity].
  apply Z.eqb_eq in Ey, Ex. lia.
Qed.

End Sorting.

(** The sort in [fetchTrades] rearranges the trades without losing or
    duplicating any, puts larger block numbers first, and keeps trades of
    the same block in the order in which they arrived. *)
Theorem sortTrades_sorted_stable (data : list MultiSwap) :
  Permutation (sortTrades data) data
  /\ StronglySorted (fun a b => block_num b <= block_num a) (sortTrades data)
  /\ forall n : Z,
      List.filter (fun t => block_num t =? n) (sortTrades data)
      = List.filter (fun t => block_num t =? n) data.
Proof.
  split; [apply sortTrades_perm |].
  assert (Hs : StronglySorted newer_first (sortTrades data)).
  { induction data as [|x data IH]; [constructor |].
    cbn [sortTrades fold_right]. now apply insertTrade_sorted. }
  split; [exact Hs |].
  intros n. clear Hs. induction data as [|x data IH]; [reflexivity |].
  cbn [sortTrades fold_right]. fold (sortTrades data).
  rewrite insertTrade_filter.
  - cbn [List.filter]. now rewrite IH.
  - clear IH. induction data as [|y data IH]; [constructor |].
    cbn [sortTrades fold_right]. now apply insertTrade_sorted.
Qed.

(** ** More on formatting *)

(** For a known token with at least one decimal and an amount [a] given
    by a string of digits, the result is an integer part, the separator,
    [min decimals 3] fractional digits, a space and the symbol, and the
    digits shown denote [a] divided by the power of ten of the decimals
    not shown, rounded down: nothing is lost up to three decimals, and
    beyond them the amount is never overstated. *)
Theorem format_digits_shown (tokenMap : gmap string Token)
    (raw addr : string) (tok : Token) :
  tokenMap !! addr = Some tok ->
  JSString.all_digits raw = true ->
  (0 < decimals tok)%nat ->
  let a := JSString.digits_value raw in
  let d := decimals tok in
  let k := Nat.min d 3 in
  exists ip fp : string,
    formatAmountWithToken tokenMap raw addr
    = Ok (ip +:+ "." +:+ fp +:+ " " +:+ symbol tok)
    /\ JSString.all_digits ip = true /\ (1 <= String.length ip)%nat
    /\ JSString.all_digits fp = true /\ String.length fp = k
    /\ JSString.digits_value (ip +:+ fp) = a / 10 ^ Z.of_nat (d - k)
    /\ JSString.digits_value (ip +:+ fp) * 10 ^ Z.of_nat (d - k) <= a
       < (JSString.digits_value (ip +:+ fp) + 1) * 10 ^ Z.of_nat (d - k).
Proof.
  intros Hlook Hraw Hd a d k.
  pose proof (digits_value_bound raw Hraw) as [Ha _]. fold a in Ha.
  destruct (padded_remainder a d Ha Hd) as (Hlen & Hall & Hval).
  pose proof (formatAmountWithToken_digits tokenMap raw addr tok Hlook Hraw) as Hout.
  fold a d in Hout.
  set (padded := JSString.padStart
                   (JSString.decimal_string (a mod 10 ^ Z.of_nat d)) d "0") in *.
  assert (Hcut : (3 <= d)%nat ->
                 JSString.digits_value (JSString.slice_to padded 3)
                 = (a mod 10 ^ Z.of_nat d) / 10 ^ Z.of_nat (d - 3)).
  { intros H3. rewrite (slice_to_value padded 3 Hall) by lia. now rewrite Hlen, Hval. }
  assert (Hp : 0 < 10 ^ Z.of_nat d) by (apply Z.pow_pos_nonneg; lia).
  assert (Hq : 0 <= a / 10 ^ Z.of_nat d) by (apply Z.div_pos; lia).
  assert (Hpk : 0 < 10 ^ Z.of_nat (d - k)) by (apply Z.pow_pos_nonneg; lia).
  assert (Hsplit : 10 ^ Z.of_nat d = 10 ^ Z.of_nat k * 10 ^ Z.of_nat (d - k)).
  { rewrite <- Z.pow_add_r by lia. f_equal. lia. }
  assert (Hfp : JSString.digits_value (JSString.slice_to padded 3)
                = (a mod 10 ^ Z.of_nat d) / 10 ^ Z.of_nat (d - k)).
  { destruct (Nat.le_gt_cases 3 d) as [H3 | H3].
    - rewrite (Hcut H3). do 3 f_equal. lia.
    - rewrite slice_to_all by lia. rewrite Hval.
      replace (d - k)%nat with 0%nat by lia. now rewrite Z.div_1_r. }
  assert (Hflen : String.length (JSString.slice_to padded 3) = k).
  { destruct (Nat.le_gt_cases 3 d) as [H3 | H3].
    - rewrite slice_to_length by lia. lia.
    - rewrite slice_to_all by lia. lia. }
  assert (Hshown :
            JSString.digits_value
              (JSString.decimal_string (a / 10 ^ Z.of_nat d)
                 +:+ JSString.slice_to padded 3)
            = a / 10 ^ Z.of_nat (d - k)).
  { rewrite digits_value_app, Hflen, Hfp, (decimal_string_value _ Hq).
    pose proof (Z.div_mod a (10 ^ Z.of_nat d) ltac:(lia)) as Hdm.
    pose proof (Z.mod_pos_bound a (10 ^ Z.of_nat d) Hp) as Hm.
    set (q := a / 10 ^ Z.of_nat d) in *. set (r := a mod 10 ^ Z.of_nat d) in *.
    set (P := 10 ^ Z.of_nat (d - k)) in *. set (K := 10 ^ Z.of_nat k) in *.
    rewrite Hsplit in Hdm.
    transitivity ((q * K * P + r) / P); [now rewrite Z.div_add_l by lia |].
    f_equal. rewrite Hdm at 1. ring. }
  exists (JSString.decimal_string (a / 10 ^ Z.of_nat d)), (JSString.slice_to padded 3).
  split; [exact Hout |].
  split; [now apply decimal_string_all_digits |].
  split; [apply to_digits_nonempty |].
  split; [apply (slice_all_digits padded 3 Hall) |].
  split; [exact Hflen |].
  split; [exact Hshown |].
  rewrite Hshown.
  pose proof (Z.div_mod a (10 ^ Z.of_nat (d - k)) ltac:(lia)) as Hdm.
  pose proof (Z.mod_pos_bound a (10 ^ Z.of_nat (d - k)) Hpk) as Hm.
  nia.
Qed.

Lemma format_digits_shown_witness :
  exists ip fp : string,
    formatAmountWithToken Examples.registry "1999999" "U"
    = Ok (ip +:+ "." +:+ fp +:+ " " +:+ "USD")
    /\ JSString.all_digits ip = true /\ (1 <= String.length ip)%nat
    /\ JSString.all_digits fp = true /\ String.length fp = 3%nat
    /\ JSString.digits_value (ip +:+ fp) = 1999999 / 10 ^ 3
    /\ JSString.digits_value (ip +:+ fp) * 10 ^ 3 <= 1999999
       < (JSString.digits_value (ip +:+ fp) + 1) * 10 ^ 3.
Proof.
  refine (format_digits_shown Examples.registry "1999999" "U"
            (Examples.token "U" "USD" 6 (Some (Number.parseFloat "1")))
            eq_refl eq_refl _).
  simpl. lia.
Defined.

(** For a known token the result depends on the number an amount string
    denotes, not on how it is written: leading zeros change nothing. *)
Theorem format_leading_zeros (tokenMap : gmap string Token)
    (raw1 raw2 addr : string) (tok : Token) :
  tokenMap !! addr = Some tok ->
  JSString.all_digits raw1 = true ->
  JSString.all_digits raw2 = true ->
  JSString.digits_value raw1 = JSString.digits_value raw2 ->
  formatAmountWithToken tokenMap raw1 addr = formatAmountWithToken tokenMap raw2 addr.
Proof.
  intros Hlook H1 H2 Hv.
  rewrite (formatAmountWithToken_digits tokenMap raw1 addr tok Hlook H1).
  rewrite (formatAmountWithToken_digits tokenMap raw2 addr tok Hlook H2).
  now rewrite Hv.
Qed.

Lemma format_leading_zeros_witness :
  formatAmountWithToken Examples.registry "0001234567" "U"
  = formatAmountWithToken Examples.registry "1234567" "U".
Proof.
  exact (format_leading_zeros Examples.registry "0001234567" "1234567" "U"
           (Examples.token "U" "USD" 6 (Some (Number.parseFloat "1")))
           eq_refl eq_refl eq_refl eq_refl).
Defined.

(** ** From big numbers to floating point *)

Section Conversion.

Import JSString.

Lemma digit_head (c : ascii) :
  is_digit c = true ->
  is_space c = false /\ c <> "-"%char /\ c <> "+"%char /\ c <> "I"%char.
Proof.
  intros H. split; [now apply is_digit_not_space |].
  repeat split; intros ->; discriminate H.
Qed.

Lemma span_sign_other (c : ascii) (s : string) :
  c <> "-"%char -> c <> "+"%char ->
  Number.span_sign (String c s) = (false, String c s).
Proof.
  intros Hm Hp.
  destruct c as [[] [] [] [] [] [] [] []]; try reflexivity; congruence.
Qed.

Lemma span_digits_all (s : string) :
  all_digits s = true -> span_digits s = (s, "").
Proof.
  induction s as [|c s IH]; [reflexivity |].
  cbn [all_digits span_digits]. intros H. apply andb_true_iff in H as [Hc Hs].
  now rewrite Hc, (IH Hs).
Qed.

Lemma parse_unsigned_digits (neg : bool) (s : string) :
  all_digits s = true -> s <> "" ->
  Number.parse_unsigned neg s = Number.of_ratio neg (digits_value s) 1.
Proof.
  intros Hall Hne. unfold Number.parse_unsigned.
  destruct s as [|c s]; [congruence |].
  assert (Hc : is_digit c = true) by (simpl in Hall; now apply andb_true_iff in Hall).
  destruct (digit_head c Hc) as (_ & _ & _ & HI).
  destruct (String.prefix "Infinity" (String c s)) eqn:E.
  { apply String.prefix_correct in E. simpl in E. congruence. }
  rewrite (span_digits_all _ Hall). cbv iota beta. rewrite app_empty_r.
  unfold Number.of_decimal. cbn [Number.exponent_part String.length].
  change (0 - Z.of_nat 0) with 0. cbn [Z.leb Z.compare].
  change (10 ^ 0) with 1. now rewrite Z.mul_1_r.
Qed.

(** Reading the decimal rendering of an integer gives the binary64
    number nearest to it. *)
Lemma parseFloat_decimal (a : Z) :
  Number.parseFloat (BN.decimal a) = Number.of_Z a.
Proof.
  unfold Number.parseFloat, BN.decimal, Number.of_Z.
  destruct (a <? 0) eqn:Ea.
  - apply Z.ltb_lt in Ea.
    cbn [trim_start]. change (is_space "-") with false. cbv iota.
    cbn [Number.span_sign].
    assert (Hnn : 0 <= - a) by lia.
    rewrite parse_unsigned_digits.
    + rewrite (decimal_string_value _ Hnn). f_equal. lia.
    + now apply decimal_string_all_digits.
    + intros E. pose proof (to_digits_nonempty (Z.to_nat (Z.log2 (- a))) (- a) "") as H.
      unfold decimal_string in E. rewrite E in H. simpl in H. lia.
  - apply Z.ltb_ge in Ea.
    pose proof (decimal_string_all_digits a Ea) as Hall.
    pose proof (to_digits_nonempty (Z.to_nat (Z.log2 a)) a "") as Hlen.
    fold (decimal_string a) in Hlen.
    destruct (decimal_string a) as [|c s] eqn:Es; [simpl in Hlen; lia |].
    assert (Hc : is_digit c = true) by (simpl in Hall; now apply andb_true_iff in Hall).
    destruct (digit_head c Hc) as (Hsp & Hm & Hp & _).
    cbn [trim_start]. rewrite Hsp, (span_sign_other c s Hm Hp).
    rewrite parse_unsigned_digits by (try exact Hall; discriminate).
    rewrite <- Es, (decimal_string_value a Ea). f_equal. lia.
Qed.

End Conversion.

(** The human amount is the quotient of the binary64 numbers nearest to
    the amount and to [10 ^ decimals]: passing through decimal strings
    loses nothing beyond these two roundings and that of the division. *)
Theorem humanAmountFloat_nearest (token : option Token) (amount : Z) :
  humanAmountFloat token amount
  = Number.div (Number.of_Z amount)
      (Number.of_Z (10 ^ Z.of_nat (default 0%nat (decimals <$> token)))).
Proof.
  unfold humanAmountFloat. now rewrite !parseFloat_decimal.
Qed.

(** ** More on the volume *)


Section Legs.

Lemma max_positive_zero (a b : spec_float) :
  Number.is_positive a = true -> Number.is_zero b = true ->
  Number.max a b = a /\ Number.max b a = a.
Proof.
  destruct a as [| [] | | [] m e], b as [[] | | |]; simpl; intros Ha Hb;
    try discriminate; split; reflexivity.
Qed.

End Legs.

(** When one leg has no price, its human amount being finite, and the
    value of the other leg is greater than zero, the volume is the value
    of that other leg. *)
Theorem volume_priced_leg (tokenMap : gmap string Token) (trade : MultiSwap) :
  JSString.all_digits (amount_in trade) = true ->
  JSString.all_digits (amount_out trade) = true ->
  let tokenIn := tokenMap !! token_in trade in
  let tokenOut := tokenMap !! token_out trade in
  let amountIn := JSString.digits_value (amount_in trade) in
  let amountOut := JSString.digits_value (amount_out trade) in
  (tokenOut ≫= price = None ->
   Number.is_finite (humanAmountFloat tokenOut amountOut) = true ->
   Number.is_positive (legValue tokenIn amountIn) = true ->
   calculateVolume tokenMap trade = Ok (Number.toFixed3 (legValue tokenIn amountIn)))
  /\ (tokenIn ≫= price = None ->
      Number.is_finite (humanAmountFloat tokenIn amountIn) = true ->
      Number.is_positive (legValue tokenOut amountOut) = true ->
      calculateVolume tokenMap trade = Ok (Number.toFixed3 (legValue tokenOut amountOut))).
Proof.
  intros Hin Hout tokenIn tokenOut amountIn amountOut.
  rewrite (calculateVolume_digits tokenMap trade Hin Hout).
  fold tokenIn tokenOut amountIn amountOut. unfold volumeNumber.
  split; intros Hp Hfin Hpos.
  - assert (Hz : Number.is_zero (legValue tokenOut amountOut) = true).
    { unfold legValue. rewrite Hp. now apply mul_zero_finite. }
    now rewrite (proj1 (max_positive_zero _ _ Hpos Hz)).
  - assert (Hz : Number.is_zero (legValue tokenIn amountIn) = true).
    { unfold legValue. rewrite Hp. now apply mul_zero_finite. }
    now rewrite (proj2 (max_positive_zero _ _ Hpos Hz)).
Qed.

Lemma volume_priced_leg_witness :
  calculateVolume Examples.registry (Examples.trade "A" "C" "10000000000000000000" "3")
  = Ok (Number.toFixed3
          (legValue (Examples.registry !! "A") 10000000000000000000)).
Proof.
  apply (proj1 (volume_priced_leg Examples.registry
                  (Examples.trade "A" "C" "10000000000000000000" "3") eq_refl eq_refl));
    vm_compute; reflexivity.
Defined.

Section Unpriced.

Variable tokenMap : gmap string Token.

Lemma unpriced_volume (t : MultiSwap) :
  unpriced tokenMap t ->
  Number.toFixed3
    (volumeNumber (tokenMap !! token_in t) (tokenMap !! token_out t)
       (JSString.digits_value (amount_in t)) (JSString.digits_value (amount_out t)))
  = "0.000".
Proof.
  intros (_ & _ & Hpi & Hpo & Hfi & Hfo).
  apply toFixed3_zero. unfold volumeNumber, legValue. rewrite Hpi, Hpo.
  apply max_zero; now apply mul_zero_finite.
Qed.

Lemma unpriced_fold (trades : list MultiSwap) :
  (forall t, In t trades -> unpriced tokenMap t) ->
  fold_left
    (fun acc t =>
       Number.add acc
         (Number.parseFloat
            (Number.toFixed3
               (volumeNumber (tokenMap !! token_in t) (tokenMap !! token_out t)
                  (JSString.digits_value (amount_in t))
                  (JSString.digits_value (amount_out t))))))
    trades Number.zero
  = Number.zero.
Proof.
  induction trades as [|t trades IH]; intros H; [reflexivity |].
  cbn [fold_left]. rewrite (unpriced_volume t (H t (or_introl eq_refl))).
  change (Number.add Number.zero (Number.parseFloat "0.000")) with Number.zero.
  apply IH. intros t' Ht'. apply H. now right.
Qed.

End Unpriced.

(** When no leg of any trade has a price (the token is unknown or carries
    none), the amounts being strings of digits with finite human amounts,
    every volume is ["0.000"] and so is the total shown. *)
Theorem total_volume_unpriced (tokenMap : gmap string Token) (trades : list MultiSwap) :
  (forall t : MultiSwap, In t trades ->
     JSString.all_digits (amount_in t) = true
     /\ JSString.all_digits (amount_out t) = true
     /\ tokenMap !! token_in t ≫= price = None
     /\ tokenMap !! token_out t ≫= price = None
     /\ Number.is_finite
          (humanAmountFloat (tokenMap !! token_in t)
             (JSString.digits_value (amount_in t))) = true
     /\ Number.is_finite
          (humanAmountFloat (tokenMap !! token_out t)
             (JSString.digits_value (amount_out t))) = true) ->
  Forall (fun t => calculateVolume tokenMap t = Ok "0.000") trades
  /\ totalVolumeText tokenMap trades = Ok "0.000".
Proof.
  intros H. split.
  - apply List.Forall_forall. intros t Hin.
    destruct (H t Hin) as (Hi & Ho & _).
    rewrite (calculateVolume_digits tokenMap t Hi Ho).
    f_equal. now apply unpriced_volume, H.
  - unfold totalVolumeText, calculateTotalVolume.
    rewrite reduce_ok by (intros t Hin; destruct (H t Hin) as (Hi & Ho & _); now split).
    cbn [bind]. now rewrite (unpriced_fold tokenMap trades H).
Qed.

Lemma total_volume_unpriced_witness :
  totalVolumeText Examples.registry
    [Examples.trade "C" "X" "12" "500"; Examples.trade "Y" "C" "7" "3"]
  = Ok "0.000".
Proof.
  refine (proj2 (total_volume_unpriced Examples.registry
            [Examples.trade "C" "X" "12" "500"; Examples.trade "Y" "C" "7" "3"] _)).
  intros t [<- | [<- | []]]; repeat split; vm_compute; reflexivity.
Defined.

(** ** Rows and the total *)

Section Rows.

Variable tokenMap : gmap string Token.

Lemma format_is_ok (raw addr : string) :
  JSString.all_digits (BN.unsigned_part raw) = true ->
  BN.leaves_unset raw = false ->
  is_ok (formatAmountWithToken tokenMap raw addr) = true.
Proof.
  intros Hd Hu.
  destruct (tokenMap !! addr) as [tok|] eqn:Hlook.
  - pose proof (format_known_cases tokenMap raw addr tok Hlook) as H.
    destruct (formatAmountWithToken tokenMap raw addr) as [v | e |].
    + reflexivity.
    + destruct H as [_ H]. congruence.
    + congruence.
  - unfold formatAmountWithToken. now rewrite Hlook.
Qed.

Lemma forallb_perm {A : Type} (f : A -> bool) (l l' : list A) :
  Permutation l l' -> forallb f l = forallb f l'.
Proof.
  induction 1 as [| x l l' _ IH | x y l | l l' l'' _ IH1 _ IH2]; cbn [forallb].
  - reflexivity.
  - now rewrite IH.
  - now rewrite !andb_assoc, (andb_comm (f y)).
  - now rewrite IH1.
Qed.

End Rows.

(** A row of the table renders exactly when the volume of its trade
    computes: then both amounts format as well, the volume cell holds the
    volume, and the path cell joins the symbols shown for the addresses
    of the path. *)
Theorem tableRow_renders (tokenMap : gmap string Token) (trade : MultiSwap) :
  is_ok (tableRow tokenMap trade) = is_ok (calculateVolume tokenMap trade)
  /\ forall row : Row,
      tableRow tokenMap trade = Ok row ->
      calculateVolume tokenMap trade = Ok (cell_volume row)
      /\ formatAmountWithToken tokenMap (amount_in trade) (token_in trade)
         = Ok (cell_sell_amount row)
      /\ formatAmountWithToken tokenMap (amount_out trade) (token_out trade)
         = Ok (cell_buy_amount row)
      /\ cell_path row = join " -> " (map (getSymbol tokenMap) (path trade))
      /\ cell_block_num row = block_num trade
      /\ cell_user row = origin trade.
Proof.
  split.
  - unfold tableRow.
    destruct (is_ok (calculateVolume tokenMap trade)) eqn:Ev.
    + pose proof (calculateVolume_cases tokenMap trade) as Hv.
      destruct (calculateVolume tokenMap trade) as [v | e |] eqn:Ecv;
        try discriminate Ev.
      destruct Hv as (Hi & Ho & Hui & Huo).
      pose proof (format_is_ok tokenMap _ (token_in trade) Hi Hui) as Hfi.
      pose proof (format_is_ok tokenMap _ (token_out trade) Ho Huo) as Hfo.
      destruct (formatAmountWithToken tokenMap (amount_in trade) (token_in trade));
        try discriminate Hfi.
      destruct (formatAmountWithToken tokenMap (amount_out trade) (token_out trade));
        try discriminate Hfo.
      reflexivity.
    + destruct (formatAmountWithToken tokenMap (amount_in trade) (token_in trade));
        try reflexivity.
      destruct (formatAmountWithToken tokenMap (amount_out trade) (token_out trade));
        try reflexivity.
      cbn [bind].
      destruct (calculateVolume tokenMap trade); try discriminate Ev; reflexivity.
  - intros row. unfold tableRow.
    destruct (formatAmountWithToken tokenMap (amount_in trade) (token_in trade));
      try discriminate.
    destruct (formatAmountWithToken tokenMap (amount_out trade) (token_out trade));
      try discriminate.
    cbn [bind]. destruct (calculateVolume tokenMap trade); try discriminate.
    cbn [bind]. intros [= <-]. repeat split.
Qed.

(** Whether the total can be computed does not depend on the order of the
    trades: it can be after the sort of [fetchTrades] exactly when it could
    be before. *)
Theorem total_volume_sort_ok (tokenMap : gmap string Token) (data : list MultiSwap) :
  is_ok (calculateTotalVolume tokenMap (sortTrades data))
  = is_ok (calculateTotalVolume tokenMap data).
Proof.
  unfold calculateTotalVolume. rewrite !reduce_is_ok.
  apply forallb_perm, sortTrades_perm.
Qed.

(** ** The sign of the volume *)

Section Sign.

Import JSString.

Lemma binary_round_aux_not_negative (m e : Z) (l : location) :
  Number.not_negative (binary_round_aux Number.prec Number.emax false m e l) = true.
Proof.
  unfold binary_round_aux.
  destruct (shr_fexp Number.prec Number.emax m e l) as [mrs e'].
  destruct (shr_fexp Number.prec Number.emax _ e' loc_Exact) as [mrs' e''].
  destruct (shr_m mrs'); [reflexivity | | reflexivity].
  now destruct (e'' <=? Number.emax - Number.prec).
Qed.

Lemma of_ratio_not_negative (p q : Z) :
  Number.not_negative (Number.of_ratio false p q) = true.
Proof.
  unfold Number.of_ratio. destruct (p =? 0); [reflexivity |].
  destruct (SFdiv_core_binary Number.prec Number.emax p 0 q 0) as [[mz ez] lz].
  apply binary_round_aux_not_negative.
Qed.

Lemma of_Z_not_negative (a : Z) :
  0 <= a -> Number.not_negative (Number.of_Z a) = true.
Proof.
  intros H. unfold Number.of_Z.
  destruct (a <? 0) eqn:E; [apply Z.ltb_lt in E; lia |].
  apply of_ratio_not_negative.
Qed.

Lemma div_not_negative (x y : spec_float) :
  Number.not_negative x = true -> Number.not_negative y = true ->
  Number.not_negative (Number.div x y) = true.
Proof.
  destruct x as [[] | [] | | [] mx ex], y as [[] | [] | | [] my ey];
    simpl; intros Hx Hy; try discriminate; try reflexivity.
  unfold Number.div, SFdiv.
  destruct (SFdiv_core_binary Number.prec Number.emax (Z.pos mx) ex (Z.pos my) ey)
    as [[mz ez] lz].
  apply binary_round_aux_not_negative.
Qed.

Lemma mul_not_negative (x y : spec_float) :
  Number.not_negative x = true -> Number.not_negative y = true ->
  Number.not_negative (Number.mul x y) = true.
Proof.
  destruct x as [[] | [] | | [] mx ex], y as [[] | [] | | [] my ey];
    simpl; intros Hx Hy; try discriminate; try reflexivity.
  apply binary_round_aux_not_negative.
Qed.

Lemma max_cases (a b : spec_float) :
  Number.max a b = a \/ Number.max a b = b \/ Number.max a b = S754_nan.
Proof.
  unfold Number.max.
  destruct a as [[] | | |], b as [[] | | |]; auto;
    match goal with
    | |- context [SFltb ?x ?y] => destruct (SFltb x y); auto
    end.
Qed.

Lemma max_not_negative (a b : spec_float) :
  Number.not_negative a = true -> Number.not_negative b = true ->
  Number.not_negative (Number.max a b) = true.
Proof.
  intros Ha Hb. destruct (max_cases a b) as [-> | [-> | ->]]; auto.
Qed.

Lemma or_zero_not_negative (p : option spec_float) :
  (forall v, p = Some v -> Number.not_negative v = true) ->
  Number.not_negative (Number.or_zero p) = true.
Proof.
  intros H. destruct p as [v|]; [| reflexivity].
  specialize (H v eq_refl). destruct v; try reflexivity; exact H.
Qed.

Lemma to_digits_head (fuel : nat) (n : Z) (acc : string) :
  exists c rest, to_digits (S fuel) n acc = String c rest /\ is_digit c = true.
Proof.
  revert n acc. induction fuel as [|fuel IH]; intros n acc.
  - cbn [to_digits].
    assert (Hm : 0 <= n mod 10 <= 9) by (pose proof (Z.mod_pos_bound n 10); lia).
    destruct (n / 10 =? 0); eexists _, _; split; try reflexivity;
      apply (is_digit_digit_char _ Hm).
  - cbn [to_digits].
    assert (Hm : 0 <= n mod 10 <= 9) by (pose proof (Z.mod_pos_bound n 10); lia).
    destruct (n / 10 =? 0).
    + eexists _, _; split; [reflexivity | apply (is_digit_digit_char _ Hm)].
    + apply (IH (n / 10) (String (digit_char (n mod 10)) acc)).
Qed.

Lemma toString_large_head (x : spec_float) (N : Z) :
  exists c rest, Number.toString_large x N = String c rest /\ c <> "-"%char.
Proof.
  unfold Number.toString_large.
  destruct (Number.shortest 17 x N _ 1) as [[s n] k].
  destruct (to_digits_head (Z.to_nat (Z.log2 s)) s "") as (c & rest & E & Hc).
  fold (decimal_string s) in E. rewrite E.
  destruct (digit_head c Hc) as (_ & Hm & _).
  destruct rest; eexists _, _; split; try reflexivity; exact Hm.
Qed.

Lemma padStart_slice_head (ds : string) (j : nat) :
  (exists c rest, ds = String c rest /\ is_digit c = true) ->
  exists c rest,
    slice_to (padStart ds 4 "0") (S j) = String c rest /\ is_digit c = true.
Proof.
  intros (c & rest & -> & Hc). unfold padStart, slice_to.
  destruct (4 - String.length (String c rest))%nat as [|p];
    cbn [repeat_char String.append substring]; eexists _, _; split;
    try reflexivity; exact Hc.
Qed.

Lemma prefix_minus_head (c : ascii) (rest : string) :
  c <> "-"%char -> String.prefix "-" (String c rest) = false.
Proof.
  intros Hc. cbn [String.prefix].
  destruct (ascii_dec "-" c) as [Heq | _]; [congruence | reflexivity].
Qed.

Lemma toFixed3_no_minus (x : spec_float) :
  Number.not_negative x = true -> String.prefix "-" (Number.toFixed3 x) = false.
Proof.
  destruct x as [s | s | | s m e]; intros H.
  - reflexivity.
  - destruct s; [discriminate | reflexivity].
  - reflexivity.
  - destruct s; [discriminate |].
    unfold Number.toFixed3.
    destruct (Number.magnitude m e) as [num den].
    destruct (10 ^ 21 * den <=? num).
    + destruct (toString_large_head (S754_finite false m e) (num / den))
        as (c & rest & E & Hc).
      rewrite E. now apply prefix_minus_head.
    + set (n := Number.nearest_thousandth num den).
      set (padded := padStart (decimal_string n) 4 "0").
      assert (Hlen : (4 <= String.length padded)%nat).
      { unfold padded, padStart. rewrite length_app, length_repeat_char. lia. }
      destruct (String.length padded - 3)%nat as [|j] eqn:Ej; [lia |].
      destruct (padStart_slice_head (decimal_string n) j
                  (to_digits_head (Z.to_nat (Z.log2 n)) n ""))
        as (c & rest & E & Hc).
      fold padded in E. rewrite E.
      destruct (digit_head c Hc) as (_ & Hm & _).
      now apply prefix_minus_head.
Qed.

End Sign.

(** For amounts that are strings of digits and prices that are not
    negative, the volume is never rendered with a minus sign. *)
Theorem volume_not_negative (tokenMap : gmap string Token) (trade : MultiSwap) :
  JSString.all_digits (amount_in trade) = true ->
  JSString.all_digits (amount_out trade) = true ->
  (forall v : spec_float,
      tokenMap !! token_in trade ≫= price = Some v -> Number.not_negative v = true) ->
  (forall v : spec_float,
      tokenMap !! token_out trade ≫= price = Some v -> Number.not_negative v = true) ->
  exists volume : string,
    calculateVolume tokenMap trade = Ok volume
    /\ String.prefix "-" volume = false.
Proof.
  intros Hin Hout Hpi Hpo. eexists. split.
  - apply (calculateVolume_digits tokenMap trade Hin Hout).
  - apply toFixed3_no_minus. unfold volumeNumber, legValue.
    pose proof (digits_value_bound _ Hin) as [Hi _].
    pose proof (digits_value_bound _ Hout) as [Ho _].
    apply max_not_negative; apply mul_not_negative;
      try (now apply or_zero_not_negative);
      unfold humanAmountFloat; rewrite !parseFloat_decimal;
      apply div_not_negative; apply of_Z_not_negative;
      try assumption; unfold BN.pow, BN.of_nat; apply Z.pow_nonneg; lia.
Qed.

Lemma volume_not_negative_witness :
  exists volume : string,
    calculateVolume Examples.registry Examples.swap_ten = Ok volume
    /\ String.prefix "-" volume = false.
Proof.
  apply volume_not_negative; try reflexivity;
    intros v H; vm_compute in H; injection H as <-; reflexivity.
Defined.
